(** * Checkout backend: storage layer and order service

    A shallow embedding of the persistence layer of the checkout backend
    (rest/nodejs/src/data: db.ts, the inventory ledger, transactions.ts) and
    of the order service built on it (rest/nodejs/src/api/order.ts).

    - The SQLite database behind [getTransactionsDb] is a record of tables.
      A table with a primary key is a finite map from the key to the other
      columns; the append-only [request_logs] table is a list of rows.
      INTEGER columns hold integers ([Z]), TEXT columns hold strings.
    - A JavaScript number is taken by its integer value.  The client binds
      it as a REAL: [reserveStock] and [releaseStock] are the statements on
      integers, [Real.reserveStock] and [Real.releaseStock] the statements
      with the argument rounded as a double; they agree on safe integers.
    - What the client returns to the code is read through [read_text] (a
      TEXT stops at its first NUL) and [read_integer] (an INTEGER that is
      not a safe integer is refused).
    - Every function of the data layer sends one SQL statement, so it is a
      function from the database to its result and the database after it.
      Calls are sequential: the code awaits each one before the next.
    - The payloads serialized into TEXT columns are JSON documents whose
      numbers are integers; [JSON.stringify] and [JSON.parse] are modelled
      on them.
    - A route handler runs in a world made of the database and of the
      rejections the storage client will answer with, so that an awaited
      call can fail as it does in the code; a call can also throw on its
      arguments before any statement is sent.
    - [initDbs] runs on a storage indexed by URL, with the URLs whose
      database [createClient] can open given. *)

From Stdlib Require Import ZArith Ascii String List Lia Bool.
From Stdlib Require Import DecimalString DecimalPos DecimalFacts.
From stdpp Require Import gmap strings list fin_maps.

Local Open Scope string_scope.
Local Open Scope Z_scope.

(** ** Tables (db.ts, [initDbs]) *)

(** checkouts(id PRIMARY KEY, status, data) *)
Record CheckoutSession := mkCheckoutSession {
  cs_status : string;
  cs_data : string
}.

(** idempotency_keys(key PRIMARY KEY, request_hash, response_status,
    response_body): the non-key columns of a row. *)
Record IdempotencyRow := mkIdempotencyRow {
  row_request_hash : string;
  row_response_status : Z;
  row_response_body : string
}.

(** The value [getIdempotencyRecord] builds from a row. *)
Record IdempotencyRecord := mkIdempotencyRecord {
  key : string;
  request_hash : string;
  response_status : Z;
  response_body : string
}.

(** A value as the client binds it to a statement: NULL, a TEXT for a string,
    a REAL for a number. *)
Inductive SqlValue :=
| SqlNull
| SqlText (s : string)
| SqlReal (n : Z).

(** request_logs(id AUTOINCREMENT, method, url, checkout_id, payload,
    timestamp): the values the code binds to the columns it writes. *)
Record RequestLog := mkRequestLog {
  log_method : string;
  log_url : string;
  log_checkout_id : SqlValue;
  log_payload : string
}.

Record TransactionsDb := mkTransactionsDb {
  inventory : gmap string Z;
  checkouts : gmap string CheckoutSession;
  orders : gmap string string;
  request_logs : list RequestLog;
  idempotency_keys : gmap string IdempotencyRow
}.

Definition with_inventory (t : gmap string Z) (db : TransactionsDb) : TransactionsDb :=
  {| inventory := t; checkouts := checkouts db; orders := orders db;
     request_logs := request_logs db; idempotency_keys := idempotency_keys db |}.

Definition with_checkouts (t : gmap string CheckoutSession) (db : TransactionsDb)
  : TransactionsDb :=
  {| inventory := inventory db; checkouts := t; orders := orders db;
     request_logs := request_logs db; idempotency_keys := idempotency_keys db |}.

Definition with_orders (t : gmap string string) (db : TransactionsDb) : TransactionsDb :=
  {| inventory := inventory db; checkouts := checkouts db; orders := t;
     request_logs := request_logs db; idempotency_keys := idempotency_keys db |}.

Definition with_request_logs (t : list RequestLog) (db : TransactionsDb) : TransactionsDb :=
  {| inventory := inventory db; checkouts := checkouts db; orders := orders db;
     request_logs := t; idempotency_keys := idempotency_keys db |}.

Definition with_idempotency_keys (t : gmap string IdempotencyRow) (db : TransactionsDb)
  : TransactionsDb :=
  {| inventory := inventory db; checkouts := checkouts db; orders := orders db;
     request_logs := request_logs db; idempotency_keys := t |}.

(** ** The SQL statements the data layer issues *)

Section Sql.
Context {V : Type}.

(** [UPDATE t SET cols = set(row) WHERE pk = k AND cond(row)]: the statement
    touches the row of key [k] if there is one and it satisfies the
    condition; the first component is [rowsAffected]. *)
Definition sql_update (k : string) (cond : V -> bool) (set : V -> V)
    (t : gmap string V) : nat * gmap string V :=
  match t !! k with
  | Some row => if cond row then (1%nat, <[k := set row]> t) else (0%nat, t)
  | None => (0%nat, t)
  end.

(** [INSERT INTO t VALUES (k, row) ON CONFLICT(pk) DO UPDATE SET cols =
    merge(old, EXCLUDED)]. *)
Definition sql_upsert (k : string) (row : V) (merge : V -> V -> V)
    (t : gmap string V) : gmap string V :=
  match t !! k with
  | Some old => <[k := merge old row]> t
  | None => <[k := row]> t
  end.

(** [SELECT cols FROM t WHERE pk = k]: the rows of the result set. *)
Definition sql_select (k : string) (t : gmap string V) : list V :=
  match t !! k with
  | Some row => [row]
  | None => []
  end.
End Sql.

(** ** Inventory ledger *)

(** [getInventory]: the quantity, or [None] (undefined) without a row. *)
Definition getInventory (productId : string) (db : TransactionsDb) : option Z :=
  match sql_select productId (inventory db) with
  | [] => None
  | quantity :: _ => Some quantity
  end.

(** [reserveStock]: UPDATE inventory SET quantity = quantity - ?
    WHERE product_id = ? AND quantity >= ?; returns [rowsAffected > 0].
    The arithmetic is the one of integers. *)
Definition reserveStock (productId : string) (quantity : Z) (db : TransactionsDb)
  : bool * TransactionsDb :=
  let '(rowsAffected, t) :=
    sql_update productId (fun a => quantity <=? a) (fun a => a - quantity)
      (inventory db) in
  (Nat.ltb 0 rowsAffected, with_inventory t db).

(** [releaseStock]: UPDATE inventory SET quantity = quantity + ?
    WHERE product_id = ?. *)
Definition releaseStock (productId : string) (quantity : Z) (db : TransactionsDb)
  : TransactionsDb :=
  let '(_, t) :=
    sql_update productId (fun _ => true) (fun a => a + quantity) (inventory db) in
  with_inventory t db.

(** A ledger operation, and a sequential run of operations that records the
    database after each one. *)
Inductive StockOp :=
| Reserve (productId : string) (quantity : Z)
| Release (productId : string) (quantity : Z).

Definition op_quantity (op : StockOp) : Z :=
  match op with Reserve _ q | Release _ q => q end.

Definition apply_op (op : StockOp) (db : TransactionsDb) : TransactionsDb :=
  match op with
  | Reserve p q => snd (reserveStock p q db)
  | Release p q => releaseStock p q db
  end.

Fixpoint run_ops (ops : list StockOp) (db : TransactionsDb) : list TransactionsDb :=
  match ops with
  | [] => []
  | op :: rest => let db' := apply_op op db in db' :: run_ops rest db'
  end.

(** Every recorded quantity is non-negative. *)
Definition inventory_nonneg (db : TransactionsDb) : Prop :=
  forall p a, inventory db !! p = Some a -> 0 <= a.

(** ** Quantities as the client binds them

    A JavaScript number reaches the statement as a REAL, a double.  An
    integer up to 2^53 in magnitude is a double; a larger one is rounded to
    53 significant bits, to the nearest and on a tie to the even one
    (finite doubles only: from 2^1024 on a double is infinite, which is
    outside this model).  The sum or difference of an INTEGER column and a
    REAL is computed on doubles, and an integral result is stored back in
    the INTEGER column. *)

Definition max_safe_integer : Z := 9007199254740991.

(** The integers a double holds exactly together with their neighbours
    (Number.isSafeInteger). *)
Definition safe_integer (n : Z) : Prop :=
  - max_safe_integer <= n <= max_safe_integer.

Definition to_double (n : Z) : Z :=
  let m := Z.abs n in
  if m <=? 9007199254740992 then n
  else
    let ulp := 2 ^ (Z.log2 m - 52) in
    let q := m / ulp in
    let r := m mod ulp in
    let up :=
      if 2 * r <? ulp then false
      else if ulp <? 2 * r then true
      else Z.odd q in
    Z.sgn n * ((if up then q + 1 else q) * ulp).

Module Real.

(** [reserveStock] with its quantity bound as a REAL. *)
Definition reserveStock (productId : string) (quantity : Z) (db : TransactionsDb)
  : bool * TransactionsDb :=
  let '(rowsAffected, t) :=
    sql_update productId (fun a => to_double quantity <=? a)
      (fun a => to_double (to_double a - to_double quantity))
      (inventory db) in
  (Nat.ltb 0 rowsAffected, with_inventory t db).

(** [releaseStock] with its quantity bound as a REAL. *)
Definition releaseStock (productId : string) (quantity : Z) (db : TransactionsDb)
  : TransactionsDb :=
  let '(_, t) :=
    sql_update productId (fun _ => true)
      (fun a => to_double (to_double a + to_double quantity)) (inventory db) in
  with_inventory t db.

End Real.

(** ** JSON values and the built-ins [JSON.stringify] and [JSON.parse]

    The payloads the data layer stores (checkouts, orders, logged request
    bodies) are JSON documents: the objects the route handlers obtain from
    [c.req.json()] and the ones they save.  Numbers are the integers;
    characters are the 8-bit characters of [string].  The properties of an
    object are listed in enumeration order. *)

#[local] Unset Elimination Schemes.
Inductive json :=
| JNull
| JBool (b : bool)
| JNumber (n : Z)
| JString (s : string)
| JArray (items : list json)
| JObject (props : list (string * json)).
#[local] Set Elimination Schemes.

Definition dquote : ascii := "034"%char.
Definition backslash : ascii := "092"%char.

Definition hex_char (d : N) : ascii :=
  if (d <? 10)%N then ascii_of_N (48 + d) else ascii_of_N (87 + d).

(** QuoteJSONString, one character: the two-character escapes, [\u00xx] for
    the other control characters, the character itself otherwise. *)
Definition quote_char (c : ascii) : string :=
  let n := N_of_ascii c in
  if (n =? 8)%N then "\b"
  else if (n =? 9)%N then "\t"
  else if (n =? 10)%N then "\n"
  else if (n =? 12)%N then "\f"
  else if (n =? 13)%N then "\r"
  else if (n =? 34)%N then String backslash (String dquote EmptyString)
  else if (n =? 92)%N then String backslash (String backslash EmptyString)
  else if (n <? 32)%N then
    "\u00" ++ String (hex_char (n / 16)) (String (hex_char (n mod 16)) EmptyString)
  else String c EmptyString.

Fixpoint quote_body (s : string) : string :=
  match s with
  | EmptyString => EmptyString
  | String c s' => quote_char c ++ quote_body s'
  end.

Definition quote (s : string) : string :=
  String dquote (quote_body s ++ String dquote EmptyString).

(** Number::toString on an integer: decimal digits after an optional sign. *)
Definition string_of_Z (n : Z) : string :=
  match n with
  | Z0 => "0"
  | Zpos p => NilEmpty.string_of_uint (Pos.to_uint p)
  | Zneg p => String "-" (NilEmpty.string_of_uint (Pos.to_uint p))
  end.

Fixpoint join_commas (parts : list string) : string :=
  match parts with
  | [] => EmptyString
  | [p] => p
  | p :: rest => p ++ "," ++ join_commas rest
  end.

(** [JSON.stringify(value)] without replacer or indentation. *)
Fixpoint JSON_stringify (v : json) : string :=
  match v with
  | JNull => "null"
  | JBool true => "true"
  | JBool false => "false"
  | JNumber n => string_of_Z n
  | JString s => quote s
  | JArray items => "[" ++ join_commas (map JSON_stringify items) ++ "]"
  | JObject props =>
      "{" ++ join_commas
               (map (fun kv => quote (fst kv) ++ ":" ++ JSON_stringify (snd kv)) props)
          ++ "}"
  end.

(** *** Parsing *)

Definition is_ws (c : ascii) : bool :=
  let n := N_of_ascii c in
  ((n =? 32) || (n =? 9) || (n =? 10) || (n =? 13))%N.

Fixpoint skip_ws (s : string) : string :=
  match s with
  | String c s' => if is_ws c then skip_ws s' else s
  | EmptyString => EmptyString
  end.

Definition digit_of_ascii (c : ascii) : option (Decimal.uint -> Decimal.uint) :=
  let n := N_of_ascii c in
  if (n =? 48)%N then Some Decimal.D0
  else if (n =? 49)%N then Some Decimal.D1
  else if (n =? 50)%N then Some Decimal.D2
  else if (n =? 51)%N then Some Decimal.D3
  else if (n =? 52)%N then Some Decimal.D4
  else if (n =? 53)%N then Some Decimal.D5
  else if (n =? 54)%N then Some Decimal.D6
  else if (n =? 55)%N then Some Decimal.D7
  else if (n =? 56)%N then Some Decimal.D8
  else if (n =? 57)%N then Some Decimal.D9
  else None.

(** The longest run of decimal digits at the head of [s], and what follows. *)
Fixpoint lex_digits (s : string) : Decimal.uint * string :=
  match s with
  | String c s' =>
      match digit_of_ascii c with
      | Some k => let '(d, rest) := lex_digits s' in (k d, rest)
      | None => (Decimal.Nil, s)
      end
  | EmptyString => (Decimal.Nil, EmptyString)
  end.

Definition leading_zero (d : Decimal.uint) : bool :=
  match d with
  | Decimal.D0 Decimal.Nil => false
  | Decimal.D0 _ => true
  | _ => false
  end.

(** A fraction or an exponent follows the integer part. *)
Definition starts_fraction (s : string) : bool :=
  match s with
  | String c _ =>
      let n := N_of_ascii c in ((n =? 46) || (n =? 101) || (n =? 69))%N
  | EmptyString => false
  end.

(** A JSON number: an optional minus sign, then either a single 0 or a run
    of digits that starts with a non-zero one.  A number with a fraction or
    an exponent is outside the modelled values and is refused. *)
Definition parse_number (s : string) : option (Z * string) :=
  let '(negative, s1) :=
    match s with
    | String c r => if (N_of_ascii c =? 45)%N then (true, r) else (false, s)
    | EmptyString => (false, s)
    end in
  let '(d, rest) := lex_digits s1 in
  match d with
  | Decimal.Nil => None
  | _ =>
      if leading_zero d || starts_fraction rest then None
      else Some (if negative then - Z.of_uint d else Z.of_uint d, rest)
  end.

Definition hex_val (c : ascii) : option N :=
  let n := N_of_ascii c in
  if ((48 <=? n) && (n <=? 57))%N then Some (n - 48)%N
  else if ((97 <=? n) && (n <=? 102))%N then Some (n - 87)%N
  else if ((65 <=? n) && (n <=? 70))%N then Some (n - 55)%N
  else None.

(** The character a [\uXXXX] escape denotes, when it is an 8-bit one. *)
Definition unicode_escape (h1 h2 h3 h4 : ascii) : option ascii :=
  match hex_val h1, hex_val h2, hex_val h3, hex_val h4 with
  | Some a, Some b, Some c, Some d =>
      let n := (((a * 16 + b) * 16 + c) * 16 + d)%N in
      if (n <? 256)%N then Some (ascii_of_N n) else None
  | _, _, _, _ => None
  end.

(** The character a two-character escape denotes. *)
Definition simple_escape (e : ascii) : option ascii :=
  let n := N_of_ascii e in
  if (n =? 34)%N then Some dquote
  else if (n =? 92)%N then Some backslash
  else if (n =? 47)%N then Some "/"%char
  else if (n =? 98)%N then Some "008"%char
  else if (n =? 102)%N then Some "012"%char
  else if (n =? 110)%N then Some "010"%char
  else if (n =? 114)%N then Some "013"%char
  else if (n =? 116)%N then Some "009"%char
  else None.

Definition cons_char (c : ascii) (r : option (string * string)) : option (string * string) :=
  match r with
  | Some (s, rest) => Some (String c s, rest)
  | None => None
  end.

(** The characters of a string literal after its opening quote, up to and
    including the closing quote. *)
Fixpoint parse_string_body (s : string) : option (string * string) :=
  match s with
  | EmptyString => None
  | String c r =>
      if (N_of_ascii c =? 34)%N then Some (EmptyString, r)
      else if (N_of_ascii c =? 92)%N then
        match r with
        | String e r1 =>
            if (N_of_ascii e =? 117)%N then
              match r1 with
              | String h1 (String h2 (String h3 (String h4 r2))) =>
                  match unicode_escape h1 h2 h3 h4 with
                  | Some ch => cons_char ch (parse_string_body r2)
                  | None => None
                  end
              | _ => None
              end
            else
              match simple_escape e with
              | Some ch => cons_char ch (parse_string_body r1)
              | None => None
              end
        | EmptyString => None
        end
      else if (N_of_ascii c <? 32)%N then None
      else cons_char c (parse_string_body r)
  end.

Definition parse_string (s : string) : option (string * string) :=
  match s with
  | String c r => if (N_of_ascii c =? 34)%N then parse_string_body r else None
  | EmptyString => None
  end.

Fixpoint strip_prefix (p s : string) : option string :=
  match p, s with
  | EmptyString, _ => Some s
  | String a p', String b s' => if Ascii.eqb a b then strip_prefix p' s' else None
  | String _ _, EmptyString => None
  end.

Definition parse_literal (lit : string) (v : json) (s : string) : option (json * string) :=
  match strip_prefix lit s with
  | Some rest => Some (v, rest)
  | None => None
  end.

(** Recursive descent over the JSON grammar.  [parse_elements] reads the
    elements of an array after its first bracket, [parse_members] the members
    of an object after its first brace, both up to the closing one.  The fuel
    bounds the number of nested calls. *)
Fixpoint parse_value (fuel : nat) (s : string) {struct fuel} : option (json * string) :=
  match fuel with
  | O => None
  | S f =>
      match skip_ws s with
      | EmptyString => None
      | String c r as s0 =>
          let n := N_of_ascii c in
          if (n =? 110)%N then parse_literal "null" JNull s0
          else if (n =? 116)%N then parse_literal "true" (JBool true) s0
          else if (n =? 102)%N then parse_literal "false" (JBool false) s0
          else if (n =? 34)%N then
            match parse_string s0 with
            | Some (str, rest) => Some (JString str, rest)
            | None => None
            end
          else if (n =? 91)%N then
            match skip_ws r with
            | String c1 r1 as r0 =>
                if (N_of_ascii c1 =? 93)%N then Some (JArray [], r1)
                else
                  match parse_elements f r0 with
                  | Some (items, rest) => Some (JArray items, rest)
                  | None => None
                  end
            | EmptyString => None
            end
          else if (n =? 123)%N then
            match skip_ws r with
            | String c1 r1 as r0 =>
                if (N_of_ascii c1 =? 125)%N then Some (JObject [], r1)
                else
                  match parse_members f r0 with
                  | Some (props, rest) => Some (JObject props, rest)
                  | None => None
                  end
            | EmptyString => None
            end
          else
            match parse_number s0 with
            | Some (z, rest) => Some (JNumber z, rest)
            | None => None
            end
      end
  end
with parse_elements (fuel : nat) (s : string) {struct fuel} : option (list json * string) :=
  match fuel with
  | O => None
  | S f =>
      match parse_value f s with
      | Some (v, rest) =>
          match skip_ws rest with
          | String c r =>
              if (N_of_ascii c =? 44)%N then
                match parse_elements f r with
                | Some (vs, rest') => Some (v :: vs, rest')
                | None => None
                end
              else if (N_of_ascii c =? 93)%N then Some ([v], r)
              else None
          | EmptyString => None
          end
      | None => None
      end
  end
with parse_members (fuel : nat) (s : string) {struct fuel}
  : option (list (string * json) * string) :=
  match fuel with
  | O => None
  | S f =>
      match parse_string (skip_ws s) with
      | Some (k, rest) =>
          match skip_ws rest with
          | String c r =>
              if (N_of_ascii c =? 58)%N then
                match parse_value f r with
                | Some (v, rest1) =>
                    match skip_ws rest1 with
                    | String c1 r1 =>
                        if (N_of_ascii c1 =? 44)%N then
                          match parse_members f r1 with
                          | Some (kvs, rest') => Some ((k, v) :: kvs, rest')
                          | None => None
                          end
                        else if (N_of_ascii c1 =? 125)%N then Some ([(k, v)], r1)
                        else None
                    | EmptyString => None
                    end
                | None => None
                end
              else None
          | EmptyString => None
          end
      | None => None
      end
  end.

(** [JSON.parse(text)]: the value of the whole text; [None] stands for the
    SyntaxError it throws. *)
Definition JSON_parse (text : string) : option json :=
  match parse_value (2 * String.length text + 2) text with
  | Some (v, rest) =>
      match skip_ws rest with
      | EmptyString => Some v
      | String _ _ => None
      end
  | None => None
  end.

(** Truthiness of a value that may be undefined ([None]). *)
Definition truthy (v : option json) : bool :=
  match v with
  | None => false
  | Some JNull => false
  | Some (JBool b) => b
  | Some (JNumber n) => negb (n =? 0)
  | Some (JString s) => negb (String.eqb s EmptyString)
  | Some (JArray _) => true
  | Some (JObject _) => true
  end.

(** Property read [obj.k] and property write [obj.k = v] on an object. *)
Fixpoint get_prop (k : string) (props : list (string * json)) : option json :=
  match props with
  | [] => None
  | (k', v) :: rest => if String.eqb k' k then Some v else get_prop k rest
  end.

Fixpoint set_prop (k : string) (v : json) (props : list (string * json))
  : list (string * json) :=
  match props with
  | [] => [(k, v)]
  | (k', v') :: rest =>
      if String.eqb k' k then (k, v) :: rest else (k', v') :: set_prop k v rest
  end.

(** ** Outcomes

    What a call gives: a value, or the error it throws (for an async function,
    the rejection of its promise). *)

Inductive Outcome (A : Type) :=
| Fulfilled (a : A)
| Rejected (error : string).
Arguments Fulfilled {A} a.
Arguments Rejected {A} error.

(** Errors are told apart by their kind: what the storage client rejects a
    statement with, a TypeError, a RangeError. *)
Definition storage_error : string := "storage error".
Definition type_error : string := "TypeError".
Definition range_error : string := "RangeError".

Definition rejected {A : Type} (o : Outcome A) : bool :=
  match o with
  | Fulfilled _ => false
  | Rejected _ => true
  end.

(** ** Checkout sessions, orders, request log, idempotency keys
    (data/transactions.ts) *)

(** [saveCheckout]: INSERT INTO checkouts (id, status, data) VALUES (?, ?, ?)
    ON CONFLICT(id) DO UPDATE SET status = EXCLUDED.status,
    data = EXCLUDED.data. *)
Definition saveCheckout (checkoutId status : string) (checkoutObj : json)
    (db : TransactionsDb) : TransactionsDb :=
  let dataStr := JSON_stringify checkoutObj in
  with_checkouts
    (sql_upsert checkoutId {| cs_status := status; cs_data := dataStr |}
       (fun _ excluded =>
          {| cs_status := cs_status excluded; cs_data := cs_data excluded |})
       (checkouts db))
    db.

(** [getCheckoutSession]: SELECT data FROM checkouts WHERE id = ?; the parsed
    data of the first row; undefined ([None]) without a row or when parsing
    throws. *)
Definition getCheckoutSession (checkoutId : string) (db : TransactionsDb) : option json :=
  match sql_select checkoutId (checkouts db) with
  | row :: _ =>
      match JSON_parse (cs_data row) with
      | Some v => Some v
      | None => None
      end
  | [] => None
  end.

(** [saveOrder]: INSERT INTO orders (id, data) VALUES (?, ?)
    ON CONFLICT(id) DO UPDATE SET data = EXCLUDED.data. *)
Definition saveOrder (orderId : string) (orderObj : json) (db : TransactionsDb)
  : TransactionsDb :=
  let dataStr := JSON_stringify orderObj in
  with_orders (sql_upsert orderId dataStr (fun _ excluded => excluded) (orders db)) db.

(** [getOrder]: SELECT data FROM orders WHERE id = ?. *)
Definition getOrder (orderId : string) (db : TransactionsDb) : option json :=
  match sql_select orderId (orders db) with
  | data :: _ =>
      match JSON_parse data with
      | Some v => Some v
      | None => None
      end
  | [] => None
  end.

(** [checkoutId || null]: undefined and the falsy values (null, false, 0,
    the empty string) become null, written [None]. *)
Definition or_null (checkoutId : option json) : option json :=
  if truthy checkoutId then checkoutId else None.

(** The argument the client binds for a value: NULL for null, a TEXT for a
    string, a REAL for a number (true counts as 1); an array or an object
    cannot be bound and the client throws. *)
Definition bind_value (v : option json) : Outcome SqlValue :=
  match v with
  | None => Fulfilled SqlNull
  | Some JNull => Fulfilled SqlNull
  | Some (JBool b) => Fulfilled (SqlReal (if b then 1 else 0))
  | Some (JNumber n) => Fulfilled (SqlReal n)
  | Some (JString s) => Fulfilled (SqlText s)
  | Some (JArray _) => Rejected type_error
  | Some (JObject _) => Rejected type_error
  end.

(** Whether the client can bind [checkoutId || null]. *)
Definition bindable (checkoutId : option json) : bool :=
  match checkoutId with
  | Some (JArray _) => false
  | Some (JObject _) => false
  | _ => true
  end.

(** [logRequest]: INSERT INTO request_logs (method, url, checkout_id,
    payload) VALUES (?, ?, ?, ?), with the arguments method, url,
    [checkoutId || null] and [JSON.stringify(payload)].  When an argument
    cannot be bound the client throws and no statement is sent. *)
Definition logRequest (method url : string) (checkoutId : option json)
    (payload : json) (db : TransactionsDb) : Outcome (unit * TransactionsDb) :=
  match bind_value (or_null checkoutId) with
  | Rejected e => Rejected e
  | Fulfilled checkout =>
      Fulfilled
        (tt,
         with_request_logs
           (request_logs db ++
              [{| log_method := method; log_url := url;
                  log_checkout_id := checkout;
                  log_payload := JSON_stringify payload |}])
           db)
  end.

(** A TEXT column as the client returns it to the code: the characters
    before the first NUL. *)
Fixpoint read_text (s : string) : string :=
  match s with
  | EmptyString => EmptyString
  | String c rest =>
      if (N_of_ascii c =? 0)%N then EmptyString else String c (read_text rest)
  end.

Fixpoint no_nul (s : string) : bool :=
  match s with
  | EmptyString => true
  | String c rest => negb (N_of_ascii c =? 0)%N && no_nul rest
  end.

(** An INTEGER column as the client returns it: the client refuses an
    INTEGER that is not a safe integer; from 2^63 on the column holds a
    REAL, which is returned as it is. *)
Definition read_integer (n : Z) : Outcome Z :=
  if Z.abs n <=? max_safe_integer then Fulfilled n
  else if Z.abs n <? 9223372036854775808 then Rejected range_error
  else Fulfilled n.

(** [getIdempotencyRecord]: SELECT key, request_hash, response_status,
    response_body FROM idempotency_keys WHERE key = ?; the record is built
    from the columns of the first row as the client returns them, [row.key]
    being the key of the row found.  The promise is rejected when the client
    refuses a column. *)
Definition getIdempotencyRecord (k : string) (db : TransactionsDb)
  : Outcome (option IdempotencyRecord) :=
  match sql_select k (idempotency_keys db) with
  | [] => Fulfilled None
  | row :: _ =>
      match read_integer (row_response_status row) with
      | Rejected e => Rejected e
      | Fulfilled status =>
          Fulfilled
            (Some {| key := read_text k;
                     request_hash := read_text (row_request_hash row);
                     response_status := status;
                     response_body := read_text (row_response_body row) |})
      end
  end.

(** [saveIdempotencyRecord]: INSERT ... ON CONFLICT(key) DO UPDATE SET
    request_hash, response_status and response_body to the EXCLUDED ones. *)
Definition saveIdempotencyRecord (k requestHash : string) (status : Z)
    (responseBody : string) (db : TransactionsDb) : TransactionsDb :=
  with_idempotency_keys
    (sql_upsert k
       {| row_request_hash := requestHash; row_response_status := status;
          row_response_body := responseBody |}
       (fun _ excluded =>
          {| row_request_hash := row_request_hash excluded;
             row_response_status := row_response_status excluded;
             row_response_body := row_response_body excluded |})
       (idempotency_keys db))
    db.

(** ** Asynchronous handlers

    A route handler is an async function: it awaits the data layer one call
    after the other.  Each data-layer call sends one statement to the storage
    client, whose promise either fulfils or rejects; a rejection that is
    awaited outside any try block rejects the handler.  The world a handler
    runs in is the database and, for each statement still to be sent, whether
    the client rejects it (none rejected once the list is used up). *)

Record World := mkWorld {
  world_db : TransactionsDb;
  world_faults : list bool
}.

Definition Async (A : Type) : Type := World -> Outcome A * World.

Definition ret {A : Type} (a : A) : Async A := fun w => (Fulfilled a, w).

Definition bind {A B : Type} (m : Async A) (k : A -> Async B) : Async B :=
  fun w =>
    match m w with
    | (Fulfilled a, w') => k a w'
    | (Rejected e, w') => (Rejected e, w')
    end.

Declare Scope async_scope.
Delimit Scope async_scope with async.
Notation "x <- m ;; k" := (bind m (fun x => k))
  (at level 62, m at next level, right associativity) : async_scope.
Notation "m ;;; k" := (bind m (fun _ => k))
  (at level 62, right associativity) : async_scope.

(** [await f(...)] for a data-layer function [f]: the statement is rejected
    by the client, or it runs on the database. *)
Definition await {A : Type} (stmt : TransactionsDb -> A * TransactionsDb) : Async A :=
  fun w =>
    match world_faults w with
    | true :: later =>
        (Rejected storage_error, {| world_db := world_db w; world_faults := later |})
    | false :: later =>
        let '(a, d) := stmt (world_db w) in
        (Fulfilled a, {| world_db := d; world_faults := later |})
    | [] =>
        let '(a, d) := stmt (world_db w) in
        (Fulfilled a, {| world_db := d; world_faults := [] |})
    end.

(** A statement that only reads, and one that only writes. *)
Definition query {A : Type} (f : TransactionsDb -> A) : TransactionsDb -> A * TransactionsDb :=
  fun d => (f d, d).

Definition command (f : TransactionsDb -> TransactionsDb) : TransactionsDb -> unit * TransactionsDb :=
  fun d => (tt, f d).

(** [c.json(body, status)] *)
Record Response := mkResponse {
  res_body : json;
  res_status : Z
}.

Definition c_json (body : json) (status : Z) : Response :=
  {| res_body := body; res_status := status |}.

Definition not_found : Response :=
  c_json (JObject [("error", JString "Order not found")]) 404.

(** A call that throws or returns at once, inside a handler. *)
Definition lift {A : Type} (o : Outcome A) : Async A := fun w => (o, w).

(** [await f(...)] for a data-layer function that can throw on its arguments
    before it sends its statement: the error thrown, else as [await]. *)
Definition await_call {A : Type} (call : TransactionsDb -> Outcome (A * TransactionsDb))
  : Async A :=
  fun w =>
    match call (world_db w) with
    | Rejected e => (Rejected e, w)
    | Fulfilled result => await (fun _ => result) w
    end.

(** ** Order service (api/order.ts) *)

Module OrderService.

Local Open Scope async_scope.

(** [updateRequest.checkout_id] on the parsed body: reading a property of
    null throws; a string, a number, a boolean or an array has no such
    property. *)
Definition read_checkout_id (updateRequest : json) : Outcome (option json) :=
  match updateRequest with
  | JNull => Rejected type_error
  | JObject props => Fulfilled (get_prop "checkout_id" props)
  | _ => Fulfilled None
  end.

(** [updateRequest.id = id]: on an object the property is set; on an array it
    is set on the array object and is not one of its elements, so no
    serialization shows it; on a string, a number or a boolean the
    assignment throws (module code is strict). *)
Definition assign_id (id : string) (updateRequest : json) : Outcome json :=
  match updateRequest with
  | JObject props => Fulfilled (JObject (set_prop "id" (JString id) props))
  | JArray items => Fulfilled (JArray items)
  | _ => Rejected type_error
  end.

(** PUT /orders/:id.  [body] is what [await c.req.json()] gives: the parsed
    body, or the rejection for a body that is not JSON. *)
Definition updateOrder_body (id : string) (body : Outcome json) : Async Response :=
  updateRequest <- lift body ;;
  checkoutId <- lift (read_checkout_id updateRequest) ;;
  await_call (logRequest "PUT" ("/orders/" ++ id) checkoutId updateRequest) ;;;
  existing <- await (query (getOrder id)) ;;
  if negb (truthy existing) then ret not_found
  else
    updated <- lift (assign_id id updateRequest) ;;
    await (command (saveOrder id updated)) ;;;
    ret (c_json updated 200).

(** PUT /orders/:id on a body that parses to an object, as the code types
    it ([Order]). *)
Definition updateOrder (id : string) (updateRequest : list (string * json))
  : Async Response :=
  updateOrder_body id (Fulfilled (JObject updateRequest)).

(** GET /orders/:id.  On the right of [:=] the name [getOrder] is still the
    one of the data layer. *)
Definition getOrder (id : string) : Async Response :=
  await_call (logRequest "GET" ("/orders/" ++ id) None (JObject [])) ;;;
  order <- await (query (getOrder id)) ;;
  if negb (truthy order) then ret not_found
  else
    match order with
    | Some o => ret (c_json o 200)
    | None => ret not_found
    end.

End OrderService.

(** The outcome of a handler run on a database under a schedule of storage
    faults, and the database it leaves. *)
Definition run {A : Type} (h : Async A) (d : TransactionsDb) (fs : list bool)
  : Outcome A * TransactionsDb :=
  let '(r, w) := h {| world_db := d; world_faults := fs |} in (r, world_db w).

(** A sequence of [saveCheckout] calls, oldest first, and the payload of the
    most recent one for an identifier. *)
Definition Save : Type := string * string * json.

Definition run_saves (saves : list Save) (db : TransactionsDb) : TransactionsDb :=
  fold_left (fun d '(id, status, payload) => saveCheckout id status payload d) saves db.

Fixpoint last_saved (checkoutId : string) (saves : list Save) : option json :=
  match saves with
  | [] => None
  | (id, _, payload) :: later =>
      match last_saved checkoutId later with
      | Some p => Some p
      | None => if String.eqb id checkoutId then Some payload else None
      end
  end.

(** ** Databases used as examples *)

(** The database right after [initDbs] on fresh storage, and one whose only
    row is an inventory row. *)
Definition empty_db : TransactionsDb :=
  {| inventory := ∅; checkouts := ∅; orders := ∅; request_logs := [];
     idempotency_keys := ∅ |}.

Definition stock_db (p : string) (a : Z) : TransactionsDb :=
  with_inventory {[ p := a ]} empty_db.

(** ** Notions used to state the properties of the JSON functions *)

(** The characters a serialized value can start with. *)
Definition value_start (c : ascii) : bool :=
  let n := N_of_ascii c in
  ((n =? 110) || (n =? 116) || (n =? 102) || (n =? 34) || (n =? 91) || (n =? 123)
   || (n =? 45) || ((48 <=? n) && (n <=? 57)))%N.

(** The characters a serialized number can start with. *)
Definition number_start (c : ascii) : bool :=
  let n := N_of_ascii c in ((n =? 45) || ((48 <=? n) && (n <=? 57)))%N.

(** What follows a serialized value inside a serialized text: the end of the
    text, a comma, or a closing bracket or brace. *)
Definition delimited (s : string) : bool :=
  match s with
  | EmptyString => true
  | String c _ =>
      let n := N_of_ascii c in ((n =? 44) || (n =? 93) || (n =? 125))%N
  end.

(** A bound on the nested calls [parse_value] makes to read back a value. *)
Fixpoint calls (v : json) : nat :=
  match v with
  | JArray items => S (list_sum (map (fun x => S (calls x)) items))
  | JObject props => S (list_sum (map (fun kv => S (calls (snd kv))) props))
  | _ => 1%nat
  end.

(** [parse_value] reads [v] back from its serialization, whatever delimited
    text follows, with any fuel that covers its calls. *)
Definition reads_back (v : json) : Prop :=
  forall fuel rest,
    (calls v <= fuel)%nat -> delimited rest = true ->
    parse_value fuel (JSON_stringify v ++ rest) = Some (v, rest).

(** ** Storage faults and example orders *)

(** The storage client rejects none of the statements sent to it. *)
Definition no_fault (fs : list bool) : Prop := Forall (fun rejected => rejected = false) fs.

(** An order as frozen at commit time, and an update request for it. *)
Definition frozen_order : json :=
  JObject [("id", JString "o1"); ("checkout_id", JString "c1");
           ("status", JString "processing"); ("total", JNumber 100)].

Definition update_request : list (string * json) :=
  [("status", JString "shipped"); ("total", JNumber 1)].

Definition order_db : TransactionsDb := saveOrder "o1" frozen_order empty_db.

(** ** Reservation attempts served one after the other *)




(** A text that is blank, or whose first character after the blanks cannot
    begin a JSON value: [JSON.parse] throws on it. *)
Definition not_json_start (text : string) : bool :=
  match skip_ws text with
  | EmptyString => true
  | String c _ => negb (value_start c)
  end.

(** A database whose only row is a checkout with the given data column. *)
Definition checkout_db (id data : string) : TransactionsDb :=
  with_checkouts {[ id := {| cs_status := "in_progress"; cs_data := data |} ]} empty_db.

(** ** Clients and schema (data/db.ts)

    A client is what [createClient] builds from a URL and a token.  The
    storage it reaches is a family of databases indexed by URL; a URL never
    opened before is a database without tables.  In a database each table is
    either absent or present with its rows.  URLs that differ as strings are
    kept as different entries; no property below relies on two databases
    being apart. *)

Record Client := mkClient {
  client_url : string;
  client_authToken : option string
}.

(** [process.env] *)
Record Env := mkEnv {
  TURSO_URL : option string;
  TURSO_AUTH_TOKEN : option string
}.

(** The two module-level handles; [None] is null. *)
Record Clients := mkClients {
  productsClient : option Client;
  transactionsClient : option Client
}.

Definition no_clients : Clients :=
  {| productsClient := None; transactionsClient := None |}.

(** products(id PRIMARY KEY, title, price, image_url): the non-key columns;
    [None] is SQL NULL. *)
Record ProductRow := mkProductRow {
  row_title : string;
  row_price : Z;
  row_image_url : option string
}.

Record Database := mkDatabase {
  tbl_products : option (gmap string ProductRow);
  tbl_inventory : option (gmap string Z);
  tbl_checkouts : option (gmap string CheckoutSession);
  tbl_orders : option (gmap string string);
  tbl_request_logs : option (list RequestLog);
  tbl_idempotency_keys : option (gmap string IdempotencyRow)
}.

Definition new_database : Database :=
  {| tbl_products := None; tbl_inventory := None; tbl_checkouts := None;
     tbl_orders := None; tbl_request_logs := None; tbl_idempotency_keys := None |}.

Abbreviation Storage := (gmap string Database).

Definition open_database (url : string) (s : Storage) : Database :=
  match s !! url with
  | Some d => d
  | None => new_database
  end.

Inductive Table :=
| Products
| Inventory
| Checkouts
| Orders
| RequestLogs
| IdempotencyKeys.

Definition if_not_exists {A : Type} (empty : A) (t : option A) : option A :=
  match t with
  | Some rows => Some rows
  | None => Some empty
  end.

(** CREATE TABLE IF NOT EXISTS *)
Definition create_table (t : Table) (d : Database) : Database :=
  match t with
  | Products =>
      {| tbl_products := if_not_exists ∅ (tbl_products d);
         tbl_inventory := tbl_inventory d; tbl_checkouts := tbl_checkouts d;
         tbl_orders := tbl_orders d; tbl_request_logs := tbl_request_logs d;
         tbl_idempotency_keys := tbl_idempotency_keys d |}
  | Inventory =>
      {| tbl_products := tbl_products d;
         tbl_inventory := if_not_exists ∅ (tbl_inventory d);
         tbl_checkouts := tbl_checkouts d;
         tbl_orders := tbl_orders d; tbl_request_logs := tbl_request_logs d;
         tbl_idempotency_keys := tbl_idempotency_keys d |}
  | Checkouts =>
      {| tbl_products := tbl_products d; tbl_inventory := tbl_inventory d;
         tbl_checkouts := if_not_exists ∅ (tbl_checkouts d);
         tbl_orders := tbl_orders d; tbl_request_logs := tbl_request_logs d;
         tbl_idempotency_keys := tbl_idempotency_keys d |}
  | Orders =>
      {| tbl_products := tbl_products d; tbl_inventory := tbl_inventory d;
         tbl_checkouts := tbl_checkouts d;
         tbl_orders := if_not_exists ∅ (tbl_orders d);
         tbl_request_logs := tbl_request_logs d;
         tbl_idempotency_keys := tbl_idempotency_keys d |}
  | RequestLogs =>
      {| tbl_products := tbl_products d; tbl_inventory := tbl_inventory d;
         tbl_checkouts := tbl_checkouts d; tbl_orders := tbl_orders d;
         tbl_request_logs := if_not_exists [] (tbl_request_logs d);
         tbl_idempotency_keys := tbl_idempotency_keys d |}
  | IdempotencyKeys =>
      {| tbl_products := tbl_products d; tbl_inventory := tbl_inventory d;
         tbl_checkouts := tbl_checkouts d; tbl_orders := tbl_orders d;
         tbl_request_logs := tbl_request_logs d;
         tbl_idempotency_keys := if_not_exists ∅ (tbl_idempotency_keys d) |}
  end.

Definition has_table (t : Table) (d : Database) : bool :=
  match t with
  | Products => bool_decide (is_Some (tbl_products d))
  | Inventory => bool_decide (is_Some (tbl_inventory d))
  | Checkouts => bool_decide (is_Some (tbl_checkouts d))
  | Orders => bool_decide (is_Some (tbl_orders d))
  | RequestLogs => bool_decide (is_Some (tbl_request_logs d))
  | IdempotencyKeys => bool_decide (is_Some (tbl_idempotency_keys d))
  end.

(** [client.execute(statement)] for a schema statement: it runs on the
    database the client's URL designates. *)
Definition execute_on (c : Client) (statement : Database -> Database) (s : Storage)
  : Storage :=
  <[client_url c := statement (open_database (client_url c) s)]> s.

(** The awaited statements of [initDbs], one after the other: the first one
    the client rejects rejects the whole, and the later ones are not sent. *)
Fixpoint execute_all (statements : list (Client * Table)) (fs : list bool) (s : Storage)
  : Outcome unit * Storage :=
  match statements with
  | [] => (Fulfilled tt, s)
  | (c, t) :: later =>
      match fs with
      | true :: _ => (Rejected storage_error, s)
      | _ => execute_all later (tail fs) (execute_on c (create_table t) s)
      end
  end.

(** [value || fallback] on an environment variable: undefined and the empty
    string give the fallback. *)
Definition or_else (value : option string) (fallback : string) : string :=
  match value with
  | Some v => if String.eqb v EmptyString then fallback else v
  | None => fallback
  end.

(** The schema statements of [initDbs], in the order it awaits them: the
    products table through the products client, the five others through the
    transactions client. *)
Definition schema_statements (products transactions : Client) : list (Client * Table) :=
  [(products, Products); (transactions, Inventory); (transactions, Checkouts);
   (transactions, Orders); (transactions, RequestLogs);
   (transactions, IdempotencyKeys)].

(** [createClient]: a client on the URL, or the error thrown when the
    database of the URL cannot be opened ([openable] tells which URLs can
    be). *)
Definition cannot_open : string := "cannot open database".

Definition createClient (openable : string -> bool) (url : string)
    (authToken : option string) : Outcome Client :=
  if openable url then
    Fulfilled {| client_url := url; client_authToken := authToken |}
  else Rejected cannot_open.

(** [initDbs] from given handles: each handle is assigned when its client is
    created, the products one first; then the six tables are created where
    they do not exist.  When a client cannot be created the promise is
    rejected there, the handles not yet assigned are as before and no
    statement is sent.  The result is the outcome of the promise, the
    handles and the storage. *)
Definition initDbs_with (openable : string -> bool) (handles : Clients)
    (productsPath transactionsPath : string) (env : Env)
    (fs : list bool) (s : Storage) : Outcome unit * Clients * Storage :=
  let url := or_else (TURSO_URL env) ("file:" ++ productsPath) in
  let authToken := TURSO_AUTH_TOKEN env in
  match createClient openable url authToken with
  | Rejected e => (Rejected e, handles, s)
  | Fulfilled products =>
      let handles1 :=
        {| productsClient := Some products;
           transactionsClient := transactionsClient handles |} in
      match createClient openable
              (or_else (TURSO_URL env) ("file:" ++ transactionsPath)) authToken with
      | Rejected e => (Rejected e, handles1, s)
      | Fulfilled transactions =>
          let '(outcome, s') :=
            execute_all (schema_statements products transactions) fs s in
          (outcome,
           {| productsClient := Some products;
              transactionsClient := Some transactions |},
           s')
      end
  end.

(** [initDbs] where both databases can be opened. *)
Definition initDbs (productsPath transactionsPath : string) (env : Env)
    (fs : list bool) (s : Storage) : Outcome unit * Clients * Storage :=
  initDbs_with (fun _ => true) no_clients productsPath transactionsPath env fs s.

Definition products_not_initialized : string :=
  "Products DB client not initialized. Call initDbs first.".

Definition transactions_not_initialized : string :=
  "Transactions DB client not initialized. Call initDbs first.".

(** [getProductsDb] and [getTransactionsDb]: the handle, or the Error
    thrown. *)
Definition getProductsDb (handles : Clients) : Outcome Client :=
  match productsClient handles with
  | None => Rejected products_not_initialized
  | Some c => Fulfilled c
  end.

Definition getTransactionsDb (handles : Clients) : Outcome Client :=
  match transactionsClient handles with
  | None => Rejected transactions_not_initialized
  | Some c => Fulfilled c
  end.

(** The tables of data/transactions.ts and of the inventory ledger as the
    transactions client sees them, when all five exist. *)
Definition transactions_db (d : Database) : option TransactionsDb :=
  match tbl_inventory d, tbl_checkouts d, tbl_orders d, tbl_request_logs d,
        tbl_idempotency_keys d with
  | Some i, Some c, Some o, Some l, Some k =>
      Some {| inventory := i; checkouts := c; orders := o; request_logs := l;
              idempotency_keys := k |}
  | _, _, _, _, _ => None
  end.

(** The rows of a table, none when the table is absent. *)
Definition rows_or {A : Type} (empty : A) (t : option A) : A :=
  match t with
  | Some rows => rows
  | None => empty
  end.

(** A table after a schema statement: as before, or created empty where it
    was absent. *)
Definition grown {A : Type} (empty : A) (t t' : option A) : Prop :=
  t' = t \/ (t = None /\ t' = Some empty).

Definition schema_grows (d d' : Database) : Prop :=
  grown ∅ (tbl_products d) (tbl_products d') /\
  grown ∅ (tbl_inventory d) (tbl_inventory d') /\
  grown ∅ (tbl_checkouts d) (tbl_checkouts d') /\
  grown ∅ (tbl_orders d) (tbl_orders d') /\
  grown [] (tbl_request_logs d) (tbl_request_logs d') /\
  grown ∅ (tbl_idempotency_keys d) (tbl_idempotency_keys d').

(** The URLs [initDbs] gives the two clients. *)
Definition products_url (productsPath : string) (env : Env) : string :=
  or_else (TURSO_URL env) ("file:" ++ productsPath).

Definition transactions_url (transactionsPath : string) (env : Env) : string :=
  or_else (TURSO_URL env) ("file:" ++ transactionsPath).

Definition products_client (productsPath : string) (env : Env) : Client :=
  {| client_url := products_url productsPath env;
     client_authToken := TURSO_AUTH_TOKEN env |}.

Definition transactions_client (transactionsPath : string) (env : Env) : Client :=
  {| client_url := transactions_url transactionsPath env;
     client_authToken := TURSO_AUTH_TOKEN env |}.

(** The outcome, the handles and the storage of a run of [initDbs]. *)
Definition init_outcome (r : Outcome unit * Clients * Storage) : Outcome unit := fst (fst r).
Definition init_handles (r : Outcome unit * Clients * Storage) : Clients := snd (fst r).
Definition init_storage (r : Outcome unit * Clients * Storage) : Storage := snd r.

(** Example environments, and a storage whose products database holds one
    product. *)
Definition local_env : Env := {| TURSO_URL := None; TURSO_AUTH_TOKEN := None |}.

Definition turso_env : Env :=
  {| TURSO_URL := Some "libsql://shop.turso.io"; TURSO_AUTH_TOKEN := Some "token" |}.

Definition catalogue : Storage :=
  {[ "file:products.db" :=
       {| tbl_products :=
            Some {[ "bike" := {| row_title := "Bike"; row_price := 25000;
                                 row_image_url := None |} ]};
          tbl_inventory := None; tbl_checkouts := None; tbl_orders := None;
          tbl_request_logs := None; tbl_idempotency_keys := None |} ]}.

(** ** The two orders of two ledger operations *)

Definition op_product (op : StockOp) : string :=
  match op with Reserve p _ | Release p _ => p end.

(** What an operation returns: the flag of a reservation, nothing for a
    release. *)
Definition op_result (op : StockOp) (db : TransactionsDb) : option bool :=
  match op with
  | Reserve p q => Some (fst (reserveStock p q db))
  | Release _ _ => None
  end.

(** The quantity an operation leaves in a row that held [a]. *)
Definition op_quantity_after (op : StockOp) (a : Z) : Z :=
  match op with
  | Reserve _ q => if q <=? a then a - q else a
  | Release _ q => a + q
  end.

(** The rows the handlers write to the request log: the checkout identifier
    of a PUT is the one bound for the request's. *)
Definition bound_checkout_id (checkoutId : option json) : SqlValue :=
  match bind_value (or_null checkoutId) with
  | Fulfilled v => v
  | Rejected _ => SqlNull
  end.

Definition put_log (id : string) (updateRequest : list (string * json)) : RequestLog :=
  {| log_method := "PUT"; log_url := "/orders/" ++ id;
     log_checkout_id := bound_checkout_id (get_prop "checkout_id" updateRequest);
     log_payload := JSON_stringify (JObject updateRequest) |}.

Definition get_log (id : string) : RequestLog :=
  {| log_method := "GET"; log_url := "/orders/" ++ id; log_checkout_id := SqlNull;
     log_payload := "{}" |}.

(** Whether the client rejects the first statement sent to it. *)
Definition first_rejected (fs : list bool) : bool :=
  match fs with
  | rejected :: _ => rejected
  | [] => false
  end.

(** A database whose only order has the data column [null]. *)
Definition null_order_db : TransactionsDb :=
  with_orders {[ "o1" := "null" ]} empty_db.

(** The request log of a database once [row] is appended to it. *)
Definition logged (row : RequestLog) (db : TransactionsDb) : TransactionsDb :=
  with_request_logs (request_logs db ++ [row]) db.

(** * Properties *)

(** ** Tables *)

Lemma with_inventory_id db : with_inventory (inventory db) db = db.
Proof. by destruct db. Qed.

Lemma sql_select_lookup {V} (k : string) (t : gmap string V) :
  sql_select k t = match t !! k with Some row => [row] | None => [] end.
Proof. reflexivity. Qed.

Lemma getInventory_lookup p db : getInventory p db = inventory db !! p.
Proof. unfold getInventory, sql_select. by destruct (inventory db !! p). Qed.

Lemma reserveStock_enough p q a db :
  inventory db !! p = Some a -> q <= a ->
  reserveStock p q db = (true, with_inventory (<[p := a - q]> (inventory db)) db).
Proof.
  intros Hp Hq. unfold reserveStock, sql_update. rewrite Hp.
  destruct (Z.leb_spec q a); [done | lia].
Qed.

Lemma reserveStock_short p q a db :
  inventory db !! p = Some a -> a < q -> reserveStock p q db = (false, db).
Proof.
  intros Hp Hq. unfold reserveStock, sql_update. rewrite Hp.
  destruct (Z.leb_spec q a); [lia |]. simpl. by rewrite with_inventory_id.
Qed.

Lemma reserveStock_missing p q db :
  inventory db !! p = None -> reserveStock p q db = (false, db).
Proof.
  intros Hp. unfold reserveStock, sql_update. rewrite Hp. simpl.
  by rewrite with_inventory_id.
Qed.

Lemma releaseStock_present p q a db :
  inventory db !! p = Some a ->
  releaseStock p q db = with_inventory (<[p := a + q]> (inventory db)) db.
Proof. intros Hp. unfold releaseStock, sql_update. by rewrite Hp. Qed.

Lemma releaseStock_missing p q db :
  inventory db !! p = None -> releaseStock p q db = db.
Proof.
  intros Hp. unfold releaseStock, sql_update. rewrite Hp. apply with_inventory_id.
Qed.

Lemma stock_db_lookup p a : inventory (stock_db p a) !! p = Some a.
Proof. unfold stock_db. simpl. apply lookup_singleton_eq. Qed.

(** A safe integer is a double, and on safe integers whose difference or sum
    is safe the statements with a REAL argument compute what the integer
    statements compute. *)
Lemma to_double_safe n : safe_integer n -> to_double n = n.
Proof.
  unfold safe_integer, max_safe_integer, to_double. intros Hn.
  destruct (Z.leb_spec (Z.abs n) 9007199254740992); [reflexivity | lia].
Qed.

Lemma real_reserveStock_exact p q a db :
  inventory db !! p = Some a ->
  safe_integer a -> safe_integer q -> safe_integer (a - q) ->
  Real.reserveStock p q db = reserveStock p q db.
Proof.
  intros Hp Ha Hq Haq. unfold Real.reserveStock, reserveStock, sql_update.
  rewrite Hp, (to_double_safe a Ha), (to_double_safe q Hq), (to_double_safe _ Haq).
  reflexivity.
Qed.

Lemma real_releaseStock_exact p q a db :
  inventory db !! p = Some a ->
  safe_integer a -> safe_integer q -> safe_integer (a + q) ->
  Real.releaseStock p q db = releaseStock p q db.
Proof.
  intros Hp Ha Hq Haq. unfold Real.releaseStock, releaseStock, sql_update.
  rewrite Hp, (to_double_safe a Ha), (to_double_safe q Hq), (to_double_safe _ Haq).
  reflexivity.
Qed.

(** ** Inventory ledger *)



(** One ledger operation with a non-negative quantity keeps every recorded
    quantity non-negative. *)
Lemma apply_op_nonneg op db :
  0 <= op_quantity op -> inventory_nonneg db -> inventory_nonneg (apply_op op db).
Proof.
  intros Hq Hinv p' a'. destruct op as [p q | p q]; simpl in *.
  - destruct (inventory db !! p) as [a |] eqn:Hp.
    + destruct (Z_le_gt_dec q a) as [Hle | Hgt].
      * rewrite (reserveStock_enough p q a db Hp Hle). simpl.
        rewrite lookup_insert. case_decide; [| apply Hinv].
        intros [= <-]. lia.
      * rewrite (reserveStock_short p q a db Hp) by lia. apply Hinv.
    + rewrite (reserveStock_missing p q db Hp). apply Hinv.
  - destruct (inventory db !! p) as [a |] eqn:Hp.
    + rewrite (releaseStock_present p q a db Hp). simpl.
      rewrite lookup_insert. case_decide; [| apply Hinv].
      intros [= <-]. specialize (Hinv p a Hp). lia.
    + rewrite (releaseStock_missing p q db Hp). apply Hinv.
Qed.

(** C2. Along every sequence of [reserveStock] and [releaseStock] operations
    with non-negative quantities, started from a database whose recorded
    quantities are all non-negative, the quantities are non-negative after
    each operation; and a reservation that would drive a quantity below zero
    returns false and leaves the database as it was. *)
Theorem quantity_never_negative (ops : list StockOp) (db : TransactionsDb) :
  inventory_nonneg db ->
  Forall (fun op => 0 <= op_quantity op) ops ->
  Forall inventory_nonneg (run_ops ops db) /\
  (forall d p q a,
     getInventory p d = Some a -> a - q < 0 -> reserveStock p q d = (false, d)).
Proof.
  intros Hinv Hops. split.
  - revert db Hinv. induction Hops as [| op ops Hq _ IH]; intros db Hinv; simpl.
    + constructor.
    + pose proof (apply_op_nonneg op db Hq Hinv) as Hnext.
      constructor; [exact Hnext | exact (IH _ Hnext)].
  - intros d p q a Ha Hneg. rewrite getInventory_lookup in Ha.
    apply (reserveStock_short p q a d Ha). lia.
Qed.

Lemma quantity_never_negative_witness :
  Forall inventory_nonneg
    (run_ops [Reserve "P1" 3; Reserve "P1" 3; Release "P1" 3] (stock_db "P1" 5)) /\
  (forall d p q a,
     getInventory p d = Some a -> a - q < 0 -> reserveStock p q d = (false, d)).
Proof.
  apply (quantity_never_negative
           [Reserve "P1" 3; Reserve "P1" 3; Release "P1" 3] (stock_db "P1" 5)).
  - intros p a. unfold stock_db. simpl. rewrite lookup_singleton.
    case_decide; [| done]. intros [= <-]. lia.
  - repeat constructor; simpl; lia.
Defined.

(** C3, as stated, fails when the reservation is refused: with 2 units in
    stock, reserving 3 returns false and changes nothing, and the release of
    3 that follows leaves 5 units, not the 2 recorded before the reserve. *)
Lemma release_after_refused_reserve :
  getInventory "P1" (stock_db "P1" 2) = Some 2 /\
  fst (reserveStock "P1" 3 (stock_db "P1" 2)) = false /\
  getInventory "P1"
    (releaseStock "P1" 3 (snd (reserveStock "P1" 3 (stock_db "P1" 2)))) = Some 5 /\
  getInventory "P1"
    (releaseStock "P1" 3 (snd (reserveStock "P1" 3 (stock_db "P1" 2))))
  <> getInventory "P1" (stock_db "P1" 2).
Proof.
  pose proof (stock_db_lookup "P1" 2) as H2.
  rewrite (reserveStock_short "P1" 3 2 _ H2) by lia. simpl.
  rewrite (releaseStock_present "P1" 3 2 _ H2).
  rewrite !getInventory_lookup, H2. simpl. rewrite lookup_insert_eq.
  split; [reflexivity |]. split; [reflexivity |]. split; [reflexivity |].
  discriminate.
Qed.

(** C3, amended. In a sequential execution, for a product whose recorded
    quantity [a], the quantity [q] and their difference are safe integers,
    when [reserveStock p q] returns true, the [releaseStock p q] that
    follows leaves the available quantity of [p], and with it the whole
    database, exactly as before the reserve.  The statements are the ones
    with the quantity bound as a REAL. *)
Theorem release_after_reserve_roundtrip (db : TransactionsDb) (p : string) (a q : Z) :
  getInventory p db = Some a ->
  safe_integer a -> safe_integer q -> safe_integer (a - q) ->
  fst (Real.reserveStock p q db) = true ->
  getInventory p (snd (Real.reserveStock p q db)) = Some (a - q) /\
  getInventory p (Real.releaseStock p q (snd (Real.reserveStock p q db))) = Some a /\
  Real.releaseStock p q (snd (Real.reserveStock p q db)) = db.
Proof.
  rewrite !getInventory_lookup. intros Hp Ha Hq Haq.
  rewrite (real_reserveStock_exact p q a db Hp Ha Hq Haq). intros Hok.
  destruct (Z_le_gt_dec q a) as [Hle | Hgt];
    [| rewrite (reserveStock_short p q a db Hp) in Hok by lia; discriminate].
  rewrite (reserveStock_enough p q a db Hp Hle). cbn [snd].
  set (db1 := with_inventory _ db).
  assert (H1 : inventory db1 !! p = Some (a - q))
    by (subst db1; simpl; apply lookup_insert_eq).
  assert (Hsum : safe_integer (a - q + q)) by (by replace (a - q + q) with a by lia).
  rewrite (real_releaseStock_exact p q (a - q) db1 H1 Haq Hq Hsum).
  rewrite (releaseStock_present p q (a - q) db1 H1).
  assert (Hdb : with_inventory (<[p := a - q + q]> (inventory db1)) db1 = db).
  { subst db1. destruct db as [inv ? ? ? ?]. unfold with_inventory. simpl in *.
    f_equal. rewrite insert_insert_eq. replace (a - q + q) with a by lia.
    by apply insert_id. }
  rewrite Hdb. by repeat split.
Qed.

Lemma release_after_reserve_roundtrip_witness :
  getInventory "P1" (snd (Real.reserveStock "P1" 3 (stock_db "P1" 5))) = Some (5 - 3) /\
  getInventory "P1"
    (Real.releaseStock "P1" 3 (snd (Real.reserveStock "P1" 3 (stock_db "P1" 5))))
  = Some 5 /\
  Real.releaseStock "P1" 3 (snd (Real.reserveStock "P1" 3 (stock_db "P1" 5)))
  = stock_db "P1" 5.
Proof.
  apply (release_after_reserve_roundtrip (stock_db "P1" 5) "P1" 5 3).
  - reflexivity.
  - unfold safe_integer, max_safe_integer. lia.
  - unfold safe_integer, max_safe_integer. lia.
  - unfold safe_integer, max_safe_integer. lia.
  - reflexivity.
Defined.

(** C9, as stated, fails on large quantities: the quantity is bound as a
    REAL, so the sum is computed on doubles.  With 9007199254740991 recorded
    for P1, releasing 2 records 9007199254740992, which is one less than the
    sum. *)
Lemma releaseStock_rounds_large_sum :
  getInventory "P1" (stock_db "P1" 9007199254740991) = Some 9007199254740991 /\
  0 <= 2 /\
  inventory (Real.releaseStock "P1" 2 (stock_db "P1" 9007199254740991)) !! "P1"
  = Some 9007199254740992 /\
  inventory (Real.releaseStock "P1" 2 (stock_db "P1" 9007199254740991)) !! "P1"
  <> Some (9007199254740991 + 2).
Proof.
  split; [reflexivity |]. split; [lia |].
  assert (H : inventory (Real.releaseStock "P1" 2 (stock_db "P1" 9007199254740991))
              !! "P1" = Some 9007199254740992) by (vm_compute; reflexivity).
  split; [exact H |]. rewrite H. discriminate.
Qed.

(** C9, amended. For a product whose recorded quantity [a], the quantity [q]
    and their sum are safe integers, [releaseStock] adds exactly [q] to the
    recorded quantity; no condition guards the update. *)
Theorem releaseStock_increments (db : TransactionsDb) (p : string) (a q : Z) :
  getInventory p db = Some a ->
  safe_integer a -> safe_integer q -> safe_integer (a + q) ->
  getInventory p (Real.releaseStock p q db) = Some (a + q).
Proof.
  rewrite !getInventory_lookup. intros Hp Ha Hq Haq.
  rewrite (real_releaseStock_exact p q a db Hp Ha Hq Haq).
  rewrite (releaseStock_present p q a db Hp). simpl. apply lookup_insert_eq.
Qed.

Lemma releaseStock_increments_witness :
  getInventory "P1" (Real.releaseStock "P1" 3 (stock_db "P1" 2)) = Some (2 + 3).
Proof.
  apply (releaseStock_increments (stock_db "P1" 2) "P1" 2 3).
  - reflexivity.
  - unfold safe_integer, max_safe_integer. lia.
  - unfold safe_integer, max_safe_integer. lia.
  - unfold safe_integer, max_safe_integer. lia.
Defined.



(** ** Idempotency keys *)

Lemma sql_upsert_lookup {V} (k : string) (row : V) (merge : V -> V -> V)
    (t : gmap string V) :
  (forall old, merge old row = row) -> sql_upsert k row merge t !! k = Some row.
Proof.
  intros Hm. unfold sql_upsert. destruct (t !! k) as [old |].
  - rewrite Hm. apply lookup_insert_eq.
  - apply lookup_insert_eq.
Qed.

Lemma sql_upsert_lookup_ne {V} (k k' : string) (row : V) (merge : V -> V -> V)
    (t : gmap string V) :
  k <> k' -> sql_upsert k row merge t !! k' = t !! k'.
Proof.
  intros Hne. unfold sql_upsert. destruct (t !! k); by rewrite lookup_insert_ne.
Qed.

Lemma read_text_no_nul s : no_nul s = true -> read_text s = s.
Proof.
  induction s as [| c rest IH]; simpl; [reflexivity |].
  destruct (N_of_ascii c =? 0)%N; simpl; [discriminate |].
  intros Hrest. by rewrite IH.
Qed.

Lemma read_integer_safe n : safe_integer n -> read_integer n = Fulfilled n.
Proof.
  unfold safe_integer, read_integer. intros Hn.
  destruct (Z.leb_spec (Z.abs n) max_safe_integer); [reflexivity | lia].
Qed.

(** What the lookup makes of the row of a key. *)
Lemma getIdempotencyRecord_lookup k db :
  getIdempotencyRecord k db =
  match idempotency_keys db !! k with
  | Some row =>
      match read_integer (row_response_status row) with
      | Rejected e => Rejected e
      | Fulfilled status =>
          Fulfilled
            (Some {| key := read_text k;
                     request_hash := read_text (row_request_hash row);
                     response_status := status;
                     response_body := read_text (row_response_body row) |})
      end
  | None => Fulfilled None
  end.
Proof.
  unfold getIdempotencyRecord. rewrite sql_select_lookup.
  by destruct (idempotency_keys db !! k).
Qed.

(** C5, as stated, fails on a body that holds a NUL character: the client
    returns a TEXT column up to its first NUL, so the record saved with the
    body a, NUL, b is read back with the body a. *)
Lemma idempotency_body_cut_at_nul :
  getIdempotencyRecord "k"
    (saveIdempotencyRecord "k" "h" 200
       (String "a" (String "000" (String "b" EmptyString))) empty_db)
  = Fulfilled
      (Some {| key := "k"; request_hash := "h"; response_status := 200;
               response_body := "a" |}) /\
  "a" <> String "a" (String "000" (String "b" EmptyString)).
Proof. split; [vm_compute; reflexivity | discriminate]. Qed.

(** C5, amended. For a key, a hash and a body without NUL character and a
    status that is a safe integer, after [saveIdempotencyRecord k hash status
    body] the lookup of [k] returns exactly that hash, status and body; a
    later save under the same key overwrites the record, so the lookup
    returns the values stored last. *)
Theorem idempotency_record_roundtrip (k hash body : string) (status : Z) :
  no_nul k = true -> no_nul hash = true -> no_nul body = true ->
  safe_integer status ->
  (forall db,
     getIdempotencyRecord k (saveIdempotencyRecord k hash status body db)
     = Fulfilled
         (Some {| key := k; request_hash := hash; response_status := status;
                  response_body := body |})) /\
  (forall db hash0 status0 body0,
     getIdempotencyRecord k
       (saveIdempotencyRecord k hash status body
          (saveIdempotencyRecord k hash0 status0 body0 db))
     = Fulfilled
         (Some {| key := k; request_hash := hash; response_status := status;
                  response_body := body |})).
Proof.
  intros Hk Hhash Hbody Hstatus.
  assert (Hone : forall db,
     getIdempotencyRecord k (saveIdempotencyRecord k hash status body db)
     = Fulfilled
         (Some {| key := k; request_hash := hash; response_status := status;
                  response_body := body |})).
  { intros db. rewrite getIdempotencyRecord_lookup. unfold saveIdempotencyRecord.
    simpl. rewrite sql_upsert_lookup by done. simpl.
    by rewrite (read_integer_safe status Hstatus), !read_text_no_nul. }
  split; [exact Hone |]. intros. apply Hone.
Qed.

Lemma idempotency_record_roundtrip_witness :
  (forall db,
     getIdempotencyRecord "k" (saveIdempotencyRecord "k" "h" 200 "{}" db)
     = Fulfilled
         (Some {| key := "k"; request_hash := "h"; response_status := 200;
                  response_body := "{}" |})) /\
  (forall db hash0 status0 body0,
     getIdempotencyRecord "k"
       (saveIdempotencyRecord "k" "h" 200 "{}"
          (saveIdempotencyRecord "k" hash0 status0 body0 db))
     = Fulfilled
         (Some {| key := "k"; request_hash := "h"; response_status := 200;
                  response_body := "{}" |})).
Proof.
  apply (idempotency_record_roundtrip "k" "h" "{}" 200).
  - reflexivity.
  - reflexivity.
  - reflexivity.
  - unfold safe_integer, max_safe_integer. lia.
Defined.

(** ** JSON: parsing a serialized value gives the value back *)

Lemma json_ind (P : json -> Prop) :
  P JNull -> (forall b, P (JBool b)) -> (forall n, P (JNumber n)) ->
  (forall s, P (JString s)) ->
  (forall items, Forall P items -> P (JArray items)) ->
  (forall props, Forall (fun kv => P (snd kv)) props -> P (JObject props)) ->
  forall v, P v.
Proof.
  intros HN HB HZ HS HA HO. fix IH 1.
  intros [| b | n | s | items | props].
  - exact HN.
  - apply HB.
  - apply HZ.
  - apply HS.
  - apply HA. induction items as [| x items IHitems]; constructor.
    + apply IH.
    + exact IHitems.
  - apply HO. induction props as [| [k x] props IHprops]; constructor.
    + apply IH.
    + exact IHprops.
Qed.

#[local] Arguments String.append !s1 s2 : simpl nomatch.

Lemma append_assoc (a b c : string) : (a ++ b) ++ c = a ++ (b ++ c).
Proof. induction a as [| x a IH]; simpl; [reflexivity | f_equal; exact IH]. Qed.

Lemma length_append (a b : string) :
  String.length (a ++ b) = (String.length a + String.length b)%nat.
Proof. induction a as [| x a IH]; simpl; [reflexivity | f_equal; exact IH]. Qed.

(** *** Strings *)

Lemma parse_string_body_quote_char (c : ascii) (tail : string) :
  parse_string_body (quote_char c ++ tail) = cons_char c (parse_string_body tail).
Proof.
  destruct c as [[] [] [] [] [] [] [] []]; reflexivity.
Qed.

Lemma parse_string_body_quote_body (s rest : string) :
  parse_string_body (quote_body s ++ String dquote rest) = Some (s, rest).
Proof.
  induction s as [| c s IH]; simpl; [reflexivity |].
  by rewrite append_assoc, parse_string_body_quote_char, IH.
Qed.

Lemma parse_string_quote (s rest : string) :
  parse_string (quote s ++ rest) = Some (s, rest).
Proof.
  unfold quote. simpl. rewrite append_assoc. simpl.
  apply parse_string_body_quote_body.
Qed.

(** *** Numbers *)

Lemma lex_digits_delimited (rest : string) :
  delimited rest = true -> lex_digits rest = (Decimal.Nil, rest).
Proof.
  destruct rest as [| c rest]; [reflexivity |].
  destruct c as [[] [] [] [] [] [] [] []]; simpl; intros H;
    first [discriminate H | reflexivity].
Qed.

Lemma starts_fraction_delimited (rest : string) :
  delimited rest = true -> starts_fraction rest = false.
Proof.
  destruct rest as [| c rest]; [reflexivity |].
  destruct c as [[] [] [] [] [] [] [] []]; simpl; intros H;
    first [discriminate H | reflexivity].
Qed.

Lemma lex_digits_string_of_uint (d : Decimal.uint) (rest : string) :
  delimited rest = true ->
  lex_digits (NilEmpty.string_of_uint d ++ rest) = (d, rest).
Proof.
  intros Hrest. induction d; simpl;
    [by apply lex_digits_delimited | by rewrite IHd ..].
Qed.

Lemma leading_zero_to_uint (p : positive) : leading_zero (Pos.to_uint p) = false.
Proof.
  pose proof (DecimalPos.Unsigned.to_of (Pos.to_uint p)) as Hnorm.
  rewrite DecimalPos.Unsigned.of_to in Hnorm. simpl in Hnorm.
  destruct (Pos.to_uint p) as [| d | | | | | | | | |] eqn:Hp; try reflexivity.
  destruct d; try reflexivity; exfalso.
  all: rewrite unorm_D0 in Hnorm.
  all: match type of Hnorm with
       | _ = Decimal.unorm ?u =>
           assert (Hlen : (Decimal.nb_digits (Decimal.unorm u) <= Decimal.nb_digits u)%nat)
             by (apply nb_digits_unorm; discriminate);
           rewrite <- Hnorm in Hlen; simpl in Hlen; lia
       end.
Qed.

Lemma parse_number_string_of_Z (n : Z) (rest : string) :
  delimited rest = true ->
  parse_number (string_of_Z n ++ rest) = Some (n, rest).
Proof.
  intros Hrest. unfold parse_number.
  destruct n as [| p | p]; simpl.
  - rewrite (lex_digits_delimited rest Hrest). simpl.
    by rewrite (starts_fraction_delimited rest Hrest).
  - pose proof (leading_zero_to_uint p) as Hlz.
    pose proof (DecimalPos.Unsigned.of_to p) as Hof.
    pose proof (lex_digits_string_of_uint (Pos.to_uint p) rest Hrest) as Hlex.
    destruct (Pos.to_uint p) as [| d | d | d | d | d | d | d | d | d | d] eqn:Hp;
      [by apply DecimalPos.Unsigned.to_uint_nonnil in Hp | ..].
    all: simpl in Hlex |- *; rewrite Hlex.
    all: rewrite Hlz, (starts_fraction_delimited rest Hrest); simpl.
    all: unfold Z.of_uint; rewrite Hof; reflexivity.
  - pose proof (leading_zero_to_uint p) as Hlz.
    pose proof (DecimalPos.Unsigned.of_to p) as Hof.
    rewrite (lex_digits_string_of_uint (Pos.to_uint p) rest Hrest).
    destruct (Pos.to_uint p) as [| d | d | d | d | d | d | d | d | d | d] eqn:Hp;
      [by apply DecimalPos.Unsigned.to_uint_nonnil in Hp | ..].
    all: rewrite Hlz, (starts_fraction_delimited rest Hrest); simpl.
    all: unfold Z.of_uint; rewrite Hof; reflexivity.
Qed.

(** *** Values *)

Lemma number_start_value_start (c : ascii) :
  number_start c = true -> value_start c = true.
Proof.
  destruct c as [[] [] [] [] [] [] [] []]; intros H; vm_compute in H;
    first [discriminate H | reflexivity].
Qed.

Lemma string_of_uint_head (d : Decimal.uint) (rest : string) :
  d <> Decimal.Nil ->
  exists c r, NilEmpty.string_of_uint d ++ rest = String c r /\ number_start c = true.
Proof. destruct d; [done | intros _; simpl; eauto ..]. Qed.

Lemma string_of_Z_head (n : Z) (rest : string) :
  exists c r, string_of_Z n ++ rest = String c r /\ number_start c = true.
Proof.
  destruct n as [| p | p]; simpl; [eauto | | eauto].
  apply string_of_uint_head, DecimalPos.Unsigned.to_uint_nonnil.
Qed.

Lemma JSON_stringify_head (v : json) (rest : string) :
  exists c r, JSON_stringify v ++ rest = String c r /\ value_start c = true.
Proof.
  destruct v as [| [] | n | s | items | props]; simpl; eauto.
  destruct (string_of_Z_head n rest) as (c & r & -> & Hc).
  eauto using number_start_value_start.
Qed.

Lemma parse_value_number (f : nat) (c : ascii) (r : string) :
  number_start c = true ->
  parse_value (S f) (String c r) =
  match parse_number (String c r) with
  | Some (z, rest) => Some (JNumber z, rest)
  | None => None
  end.
Proof.
  destruct c as [[] [] [] [] [] [] [] []]; intros H; vm_compute in H;
    first [discriminate H | reflexivity].
Qed.

Lemma parse_value_string (f : nat) (s rest : string) :
  parse_value (S f) (quote s ++ rest) = Some (JString s, rest).
Proof.
  pose proof (parse_string_quote s rest) as H. unfold quote in *. simpl in *.
  by rewrite H.
Qed.

Lemma parse_value_array (f : nat) (c : ascii) (r : string) :
  value_start c = true ->
  parse_value (S f) (String "[" (String c r)) =
  match parse_elements f (String c r) with
  | Some (items, rest) => Some (JArray items, rest)
  | None => None
  end.
Proof.
  destruct c as [[] [] [] [] [] [] [] []]; intros H; vm_compute in H;
    first [discriminate H | reflexivity].
Qed.

Lemma parse_value_object (f : nat) (r : string) :
  parse_value (S f) (String "{" (String dquote r)) =
  match parse_members f (String dquote r) with
  | Some (props, rest) => Some (JObject props, rest)
  | None => None
  end.
Proof. reflexivity. Qed.

Lemma parse_elements_last (f : nat) (s rest : string) (v : json) :
  parse_value f s = Some (v, String "]" rest) ->
  parse_elements (S f) s = Some ([v], rest).
Proof. intros H. simpl. by rewrite H. Qed.

Lemma parse_elements_more (f : nat) (s r rest : string) (v : json) (vs : list json) :
  parse_value f s = Some (v, String "," r) ->
  parse_elements f r = Some (vs, rest) ->
  parse_elements (S f) s = Some (v :: vs, rest).
Proof. intros H H'. simpl. rewrite H. simpl. by rewrite H'. Qed.

Lemma parse_members_last (f : nat) (k tail rest : string) (v : json) :
  parse_value f tail = Some (v, String "}" rest) ->
  parse_members (S f) (quote k ++ String ":" tail) = Some ([(k, v)], rest).
Proof.
  intros H. pose proof (parse_string_quote k (String ":" tail)) as Hk.
  unfold quote in *. simpl in *. rewrite Hk. simpl. by rewrite H.
Qed.

Lemma parse_members_more (f : nat) (k tail r rest : string) (v : json)
    (kvs : list (string * json)) :
  parse_value f tail = Some (v, String "," r) ->
  parse_members f r = Some (kvs, rest) ->
  parse_members (S f) (quote k ++ String ":" tail) = Some ((k, v) :: kvs, rest).
Proof.
  intros H H'. pose proof (parse_string_quote k (String ":" tail)) as Hk.
  unfold quote in *. simpl in *. rewrite Hk. simpl. rewrite H. simpl. by rewrite H'.
Qed.

Lemma parse_elements_join (items : list json) :
  Forall reads_back items -> items <> [] ->
  forall fuel rest,
    (list_sum (map (fun x => S (calls x)) items) <= fuel)%nat ->
    parse_elements fuel (join_commas (map JSON_stringify items) ++ String "]" rest)
    = Some (items, rest).
Proof.
  induction 1 as [| x l Hx Hl IH]; [done |]. intros _ fuel rest Hfuel.
  simpl in Hfuel. destruct fuel as [| f]; [lia |].
  destruct l as [| y l'].
  - simpl. apply parse_elements_last. apply Hx; [simpl in Hfuel; lia | reflexivity].
  - change (join_commas (map JSON_stringify (x :: y :: l')))
      with (JSON_stringify x ++ "," ++ join_commas (map JSON_stringify (y :: l'))).
    rewrite !append_assoc.
    apply parse_elements_more
      with (r := join_commas (map JSON_stringify (y :: l')) ++ String "]" rest).
    + apply Hx; [lia | reflexivity].
    + apply IH; [done | lia].
Qed.

Lemma parse_members_join (props : list (string * json)) :
  Forall (fun kv => reads_back (snd kv)) props -> props <> [] ->
  forall fuel rest,
    (list_sum (map (fun kv => S (calls (snd kv))) props) <= fuel)%nat ->
    parse_members fuel
      (join_commas (map (fun kv => quote (fst kv) ++ ":" ++ JSON_stringify (snd kv)) props)
       ++ String "}" rest)
    = Some (props, rest).
Proof.
  induction 1 as [| [k x] l Hx Hl IH]; [done |]. intros _ fuel rest Hfuel.
  simpl in Hfuel, Hx. destruct fuel as [| f]; [lia |].
  destruct l as [| y l'].
  - cbn [map join_commas fst snd]. rewrite !append_assoc.
    apply parse_members_last. apply Hx; [simpl in Hfuel; lia | reflexivity].
  - assert (Hfx : (calls x <= f)%nat) by lia.
    assert (Hfl : (list_sum (map (fun kv => S (calls (snd kv))) (y :: l')) <= f)%nat)
      by lia.
    set (F := fun kv : string * json =>
                quote (fst kv) ++ ":" ++ JSON_stringify (snd kv)) in *.
    change (join_commas (map F ((k, x) :: y :: l')))
      with ((quote k ++ ":" ++ JSON_stringify x) ++ "," ++ join_commas (map F (y :: l'))).
    rewrite !append_assoc.
    apply parse_members_more with (r := join_commas (map F (y :: l')) ++ String "}" rest).
    + apply Hx; [exact Hfx | reflexivity].
    + apply IH; [done | exact Hfl].
Qed.

Lemma append_single (c : ascii) (a : string) : String c EmptyString ++ a = String c a.
Proof. reflexivity. Qed.

Lemma join_commas_head (x : json) (l : list json) (tail : string) :
  exists c r,
    join_commas (map JSON_stringify (x :: l)) ++ tail = String c r /\
    value_start c = true.
Proof.
  destruct l as [| y l]; simpl.
  - apply JSON_stringify_head.
  - rewrite append_assoc. apply JSON_stringify_head.
Qed.

Lemma join_members_head (k : string) (x : json) (l : list (string * json))
    (tail : string) :
  exists r,
    join_commas
      (map (fun kv => quote (fst kv) ++ ":" ++ JSON_stringify (snd kv)) ((k, x) :: l))
    ++ tail = String dquote r.
Proof.
  destruct l as [| y l]; cbn [map join_commas fst snd]; unfold quote;
    rewrite ?append_assoc; simpl; eauto.
Qed.

(** [parse_value] reads every value back from its serialization. *)
Lemma parse_value_stringify (v : json) : reads_back v.
Proof.
  induction v as [| b | n | s | items IH | props IH] using json_ind;
    intros fuel rest Hfuel Hrest;
    (destruct fuel as [| f]; [simpl in Hfuel; lia |]).
  - reflexivity.
  - destruct b; reflexivity.
  - simpl JSON_stringify.
    destruct (string_of_Z_head n rest) as (c & r & Heq & Hc).
    pose proof (parse_number_string_of_Z n rest Hrest) as Hnum.
    rewrite Heq in *. by rewrite (parse_value_number f c r Hc), Hnum.
  - apply parse_value_string.
  - cbn [JSON_stringify]. rewrite !append_assoc, !append_single.
    destruct items as [| x l]; [reflexivity |].
    assert (Hne : x :: l <> []) by done.
    assert (Hf : (list_sum (map (fun x => S (calls x)) (x :: l)) <= f)%nat)
      by (simpl in Hfuel |- *; lia).
    pose proof (parse_elements_join (x :: l) IH Hne f rest Hf) as Hel.
    destruct (join_commas_head x l (String "]" rest)) as (c & r & Heq & Hc).
    rewrite Heq in *. by rewrite (parse_value_array f c r Hc), Hel.
  - cbn [JSON_stringify]. rewrite !append_assoc, !append_single.
    destruct props as [| [k x] l]; [reflexivity |].
    assert (Hne : (k, x) :: l <> []) by done.
    assert (Hf : (list_sum (map (fun kv => S (calls (snd kv))) ((k, x) :: l)) <= f)%nat)
      by (simpl in Hfuel |- *; lia).
    pose proof (parse_members_join ((k, x) :: l) IH Hne f rest Hf) as Hmem.
    destruct (join_members_head k x l (String "}" rest)) as (r & Heq).
    rewrite Heq in *. by rewrite parse_value_object, Hmem.
Qed.

Lemma append_nil_r (a : string) : a ++ EmptyString = a.
Proof. induction a as [| x a IH]; simpl; [reflexivity | f_equal; exact IH]. Qed.

Lemma list_sum_le_join (ws : list nat) (ss : list string) :
  Forall2 (fun w s => (w <= 2 * String.length s)%nat) ws ss ->
  (list_sum (map S ws) <= 2 * String.length (join_commas ss) + 1)%nat.
Proof.
  induction 1 as [| w s ws ss Hws Hrest IH]; [simpl; lia |].
  destruct ss as [| s' ss'].
  - inversion Hrest; subst. simpl. clear IH Hrest. lia.
  - change (join_commas (s :: s' :: ss')) with (s ++ "," ++ join_commas (s' :: ss')).
    rewrite !length_append.
    change (list_sum (map S (w :: ws))) with (S w + list_sum (map S ws))%nat.
    change (String.length ",") with 1%nat. lia.
Qed.

(** The fuel [JSON.parse] starts from covers the calls needed to read back a
    serialized value. *)
Lemma calls_le_length (v : json) : (calls v <= 2 * String.length (JSON_stringify v))%nat.
Proof.
  induction v as [| b | n | s | items IH | props IH] using json_ind.
  - simpl. lia.
  - destruct b; simpl; lia.
  - destruct (string_of_Z_head n EmptyString) as (c & r & Heq & _).
    rewrite append_nil_r in Heq. simpl JSON_stringify. rewrite Heq. simpl. lia.
  - simpl. lia.
  - cbn [JSON_stringify calls]. rewrite !length_append.
    change (String.length "[") with 1%nat. change (String.length "]") with 1%nat.
    assert (H : (list_sum (map S (map calls items))
                 <= 2 * String.length (join_commas (map JSON_stringify items)) + 1)%nat).
    { apply list_sum_le_join. induction IH; constructor; auto. }
    rewrite map_map in H. lia.
  - cbn [JSON_stringify calls]. rewrite !length_append.
    change (String.length "{") with 1%nat. change (String.length "}") with 1%nat.
    set (F := fun kv : string * json => quote (fst kv) ++ ":" ++ JSON_stringify (snd kv)).
    assert (H : (list_sum (map S (map (fun kv => calls (snd kv)) props))
                 <= 2 * String.length (join_commas (map F props)) + 1)%nat).
    { apply list_sum_le_join. induction IH as [| [k x] l Hx Hl IHl]; constructor; auto.
      subst F. cbn [fst snd] in *. rewrite !length_append. lia. }
    rewrite map_map in H. clearbody F. lia.
Qed.

(** [JSON.parse(JSON.stringify(v))] is [v]. *)
Lemma JSON_parse_stringify (v : json) : JSON_parse (JSON_stringify v) = Some v.
Proof.
  unfold JSON_parse.
  pose proof (parse_value_stringify v
                (2 * String.length (JSON_stringify v) + 2)%nat EmptyString) as H.
  rewrite append_nil_r in H. rewrite H; [reflexivity | | reflexivity].
  pose proof (calls_le_length v). lia.
Qed.

(** ** Checkout sessions *)

Lemma getCheckoutSession_lookup id db :
  getCheckoutSession id db =
  match checkouts db !! id with
  | Some row => JSON_parse (cs_data row)
  | None => None
  end.
Proof.
  unfold getCheckoutSession. rewrite sql_select_lookup.
  destruct (checkouts db !! id) as [row |]; [| reflexivity].
  by destruct (JSON_parse (cs_data row)).
Qed.

Lemma getCheckoutSession_saveCheckout id status payload db :
  getCheckoutSession id (saveCheckout id status payload db) = Some payload.
Proof.
  rewrite getCheckoutSession_lookup. unfold saveCheckout. simpl.
  rewrite sql_upsert_lookup by done. simpl. apply JSON_parse_stringify.
Qed.

Lemma getCheckoutSession_saveCheckout_ne id id' status payload db :
  id' <> id ->
  getCheckoutSession id (saveCheckout id' status payload db) = getCheckoutSession id db.
Proof.
  intros Hne. rewrite !getCheckoutSession_lookup. unfold saveCheckout. simpl.
  by rewrite sql_upsert_lookup_ne.
Qed.

(** C4. [getCheckoutSession] after [saveCheckout] for the same identifier
    returns exactly the payload saved; after any sequence of saves it returns
    the payload of the most recent save for that identifier (the whole
    payload is replaced), and what it returned before when none of the saves
    is for that identifier; without a row for the identifier it returns
    undefined. *)
Theorem checkout_save_get_roundtrip :
  (forall db id status payload,
     getCheckoutSession id (saveCheckout id status payload db) = Some payload) /\
  (forall saves db id,
     getCheckoutSession id (run_saves saves db) =
     match last_saved id saves with
     | Some payload => Some payload
     | None => getCheckoutSession id db
     end) /\
  (forall db id, checkouts db !! id = None -> getCheckoutSession id db = None) /\
  (forall saves id,
     getCheckoutSession id (run_saves saves empty_db) = last_saved id saves).
Proof.
  assert (Hseq : forall saves db id,
     getCheckoutSession id (run_saves saves db) =
     match last_saved id saves with
     | Some payload => Some payload
     | None => getCheckoutSession id db
     end).
  { induction saves as [| [[id' status] payload] later IH]; intros db id;
      [reflexivity |].
    simpl. unfold run_saves in IH. rewrite IH.
    destruct (last_saved id later) as [p |]; [reflexivity |].
    destruct (String.eqb_spec id' id) as [-> | Hne].
    - apply getCheckoutSession_saveCheckout.
    - by apply getCheckoutSession_saveCheckout_ne. }
  split; [intros; apply getCheckoutSession_saveCheckout |].
  split; [exact Hseq |].
  split.
  - intros db id Hid. by rewrite getCheckoutSession_lookup, Hid.
  - intros saves id. rewrite Hseq. by destruct (last_saved id saves).
Qed.

Lemma checkout_save_get_roundtrip_witness : getCheckoutSession "c9" empty_db = None.
Proof.
  apply (proj1 (proj2 (proj2 checkout_save_get_roundtrip)) empty_db "c9").
  reflexivity.
Defined.

(** ** Order service *)

Lemma getOrder_lookup id db :
  getOrder id db =
  match orders db !! id with
  | Some data => JSON_parse data
  | None => None
  end.
Proof.
  unfold getOrder. rewrite sql_select_lookup.
  destruct (orders db !! id) as [data |]; [| reflexivity].
  by destruct (JSON_parse data).
Qed.

Lemma getOrder_logged id row db : getOrder id (logged row db) = getOrder id db.
Proof. reflexivity. Qed.

Lemma bind_value_bindable checkoutId :
  bindable checkoutId = true ->
  bind_value (or_null checkoutId) = Fulfilled (bound_checkout_id checkoutId).
Proof.
  unfold bound_checkout_id, or_null.
  destruct (truthy checkoutId); [| reflexivity].
  by destruct checkoutId as [[] |].
Qed.


Lemma logRequest_bindable method url checkoutId payload db :
  bindable checkoutId = true ->
  logRequest method url checkoutId payload db =
  Fulfilled
    (tt,
     logged {| log_method := method; log_url := url;
               log_checkout_id := bound_checkout_id checkoutId;
               log_payload := JSON_stringify payload |} db).
Proof. intros Hc. unfold logRequest. by rewrite bind_value_bindable. Qed.


(** Whatever [logRequest] writes is one row at the end of the log. *)
Lemma logRequest_fulfilled method url checkoutId payload db result :
  logRequest method url checkoutId payload db = Fulfilled result ->
  exists row,
    log_method row = method /\ log_url row = url /\ result = (tt, logged row db).
Proof.
  unfold logRequest. destruct (bind_value (or_null checkoutId)) as [checkout | e];
    [| discriminate].
  intros [= <-]. by eexists {| log_method := method |}.
Qed.

Lemma getOrder_saveOrder id order db : getOrder id (saveOrder id order db) = Some order.
Proof.
  rewrite getOrder_lookup. unfold saveOrder. simpl.
  rewrite sql_upsert_lookup by done. apply JSON_parse_stringify.
Qed.

Lemma get_prop_set_prop_eq k v props : get_prop k (set_prop k v props) = Some v.
Proof.
  induction props as [| [k' v'] rest IH]; simpl.
  - by rewrite String.eqb_refl.
  - destruct (String.eqb_spec k' k) as [-> | Hne]; simpl.
    + by rewrite String.eqb_refl.
    + by destruct (String.eqb_spec k' k).
Qed.

Lemma get_prop_set_prop_ne k k' v props :
  k' <> k -> get_prop k' (set_prop k v props) = get_prop k' props.
Proof.
  intros Hne. induction props as [| [k0 v0] rest IH]; simpl.
  - by destruct (String.eqb_spec k k').
  - destruct (String.eqb_spec k0 k) as [-> | Hk0]; simpl.
    + by destruct (String.eqb_spec k k').
    + by rewrite IH.
Qed.

(** ** The runs of the handlers *)

(** Every run of [updateOrder]: it is rejected before anything is written,
    or the audit row is written and then it is rejected, answers 404 for an
    order that is not found, or saves the request and answers 200. *)
Lemma updateOrder_body_cases id body db fs :
  (exists e, run (OrderService.updateOrder_body id body) db fs = (Rejected e, db)) \/
  (exists row,
     log_method row = "PUT" /\ log_url row = "/orders/" ++ id /\
     ((exists e,
         run (OrderService.updateOrder_body id body) db fs
         = (Rejected e, logged row db)) \/
      (truthy (getOrder id db) = false /\
       run (OrderService.updateOrder_body id body) db fs
       = (Fulfilled not_found, logged row db)) \/
      (truthy (getOrder id db) = true /\
       exists updated,
         run (OrderService.updateOrder_body id body) db fs
         = (Fulfilled (c_json updated 200), saveOrder id updated (logged row db))))).
Proof.
  destruct body as [v | e]; [| left; by exists e].
  unfold run, OrderService.updateOrder_body, bind, lift, await_call.
  destruct (OrderService.read_checkout_id v) as [c | e]; [| left; by exists e].
  cbn [world_db].
  destruct (logRequest "PUT" ("/orders/" ++ id) c v db) as [result | e] eqn:Hlog;
    [| left; by exists e].
  apply logRequest_fulfilled in Hlog as (row & Hm & Hu & ->).
  unfold await, query, command, ret.
  destruct fs as [| [] fs1]; cbn [world_faults world_db];
    [| left; by eexists |];
    (right; exists row; split; [exact Hm |]; split; [exact Hu |]).
  - rewrite getOrder_logged.
    destruct (truthy (getOrder id db)); cbn [negb]; [| right; left; by split].
    destruct (OrderService.assign_id id v) as [updated | e];
      [right; right; split; [reflexivity |]; by exists updated | left; by exists e].
  - destruct fs1 as [| [] fs2]; cbn [world_faults world_db];
      [| left; by eexists |]; rewrite getOrder_logged;
      (destruct (truthy (getOrder id db)); cbn [negb]; [| right; left; by split]);
      (destruct (OrderService.assign_id id v) as [updated | e];
       [| left; by exists e]).
    + right; right. split; [reflexivity |]. by exists updated.
    + destruct fs2 as [| [] fs3]; cbn [world_faults world_db].
      * right; right. split; [reflexivity |]. by exists updated.
      * left. by eexists.
      * right; right. split; [reflexivity |]. by exists updated.
Qed.

(** The tables a run of [updateOrder] leaves: only the orders and the log
    can differ, and the orders by the row of the identifier alone, when
    there was an order to update. *)
Lemma updateOrder_body_frame id body db fs :
  inventory (snd (run (OrderService.updateOrder_body id body) db fs)) = inventory db /\
  checkouts (snd (run (OrderService.updateOrder_body id body) db fs)) = checkouts db /\
  idempotency_keys (snd (run (OrderService.updateOrder_body id body) db fs))
  = idempotency_keys db /\
  (orders (snd (run (OrderService.updateOrder_body id body) db fs)) = orders db \/
   (truthy (getOrder id db) = true /\
    exists updated,
      orders (snd (run (OrderService.updateOrder_body id body) db fs))
      = <[id := JSON_stringify updated]> (orders db))).
Proof.
  destruct (updateOrder_body_cases id body db fs)
    as [[e ->] | (row & _ & _ & [[e ->] | [[_ ->] | (Hexists & updated & ->)]])];
    cbn [snd]; try (by repeat split; try left).
  repeat split. right. split; [exact Hexists |]. exists updated.
  unfold saveOrder, sql_upsert. simpl. by destruct (orders db !! id).
Qed.




(** The handlers when the client rejects nothing. *)
Lemma updateOrder_body_no_fault id v c db fs :
  OrderService.read_checkout_id v = Fulfilled c ->
  bindable c = true ->
  no_fault fs ->
  exists row,
    log_method row = "PUT" /\ log_url row = "/orders/" ++ id /\
    log_checkout_id row = bound_checkout_id c /\
    log_payload row = JSON_stringify v /\
    run (OrderService.updateOrder_body id (Fulfilled v)) db fs =
    if truthy (getOrder id db) then
      match OrderService.assign_id id v with
      | Fulfilled updated =>
          (Fulfilled (c_json updated 200), saveOrder id updated (logged row db))
      | Rejected e => (Rejected e, logged row db)
      end
    else (Fulfilled not_found, logged row db).
Proof.
  intros Hread Hc Hfs.
  eexists {| log_method := "PUT" |}. repeat (split; [reflexivity |]).
  unfold run, OrderService.updateOrder_body, bind, lift, await_call.
  rewrite Hread. cbn [world_db]. rewrite logRequest_bindable by exact Hc.
  unfold await, query, command, ret.
  destruct Hfs as [| ? fs1 -> [| ? fs2 -> [| ? fs3 -> _]]];
    cbn [world_faults world_db]; rewrite getOrder_logged;
    destruct (truthy (getOrder id db)); cbn [negb]; try reflexivity;
    destruct (OrderService.assign_id id v); reflexivity.
Qed.

Lemma updateOrder_no_fault id req db fs :
  bindable (get_prop "checkout_id" req) = true ->
  no_fault fs ->
  run (OrderService.updateOrder id req) db fs =
  if truthy (getOrder id db) then
    let updated := JObject (set_prop "id" (JString id) req) in
    (Fulfilled (c_json updated 200), saveOrder id updated (logged (put_log id req) db))
  else (Fulfilled not_found, logged (put_log id req) db).
Proof.
  intros Hc Hfs.
  unfold run, OrderService.updateOrder, OrderService.updateOrder_body, bind, lift,
    await_call.
  cbn [OrderService.read_checkout_id world_db].
  rewrite logRequest_bindable by exact Hc.
  unfold await, query, command, ret.
  destruct Hfs as [| ? fs1 -> [| ? fs2 -> [| ? fs3 -> _]]];
    cbn [world_faults world_db]; rewrite getOrder_logged;
    destruct (truthy (getOrder id db)); reflexivity.
Qed.

Lemma getOrder_run id db fs :
  run (OrderService.getOrder id) db fs =
  match fs with
  | true :: _ => (Rejected storage_error, db)
  | _ =>
      match tail fs with
      | true :: _ => (Rejected storage_error, logged (get_log id) db)
      | _ =>
          (Fulfilled match getOrder id db with
                     | Some order =>
                         if truthy (Some order) then c_json order 200 else not_found
                     | None => not_found
                     end,
           logged (get_log id) db)
      end
  end.
Proof.
  unfold run, OrderService.getOrder, bind, await_call. cbn [world_db].
  rewrite logRequest_bindable by reflexivity.
  unfold await, query, command, ret.
  destruct fs as [| [] [| [] later]]; cbn -[truthy getOrder logged]; try reflexivity;
    rewrite getOrder_logged; destruct (getOrder id db) as [order |]; try reflexivity;
    destruct (truthy (Some order)); reflexivity.
Qed.

Lemma getOrder_no_fault id db fs :
  no_fault fs ->
  run (OrderService.getOrder id) db fs =
  (Fulfilled match getOrder id db with
             | Some order => if truthy (Some order) then c_json order 200 else not_found
             | None => not_found
             end,
   logged (get_log id) db).
Proof.
  intros Hfs. rewrite getOrder_run.
  by destruct Hfs as [| ? fs1 -> [| ? fs2 -> _]].
Qed.




(** C7, as stated, fails: on the order o1, frozen with checkout c1, status
    processing and total 100, an update request that carries a status and a
    total is answered 200, and the stored order then has total 1 and no
    checkout identifier at all. *)
Lemma updateOrder_changes_frozen_fields :
  getOrder "o1" order_db = Some frozen_order /\
  fst (run (OrderService.updateOrder "o1" update_request) order_db [])
  = Fulfilled
      (c_json (JObject [("status", JString "shipped"); ("total", JNumber 1);
                        ("id", JString "o1")]) 200) /\
  getOrder "o1" (snd (run (OrderService.updateOrder "o1" update_request) order_db []))
  = Some (JObject [("status", JString "shipped"); ("total", JNumber 1);
                   ("id", JString "o1")]) /\
  get_prop "total" [("id", JString "o1"); ("checkout_id", JString "c1");
                    ("status", JString "processing"); ("total", JNumber 100)]
  <> get_prop "total" [("status", JString "shipped"); ("total", JNumber 1);
                       ("id", JString "o1")] /\
  get_prop "checkout_id" [("id", JString "o1"); ("checkout_id", JString "c1");
                          ("status", JString "processing"); ("total", JNumber 100)]
  <> get_prop "checkout_id" [("status", JString "shipped"); ("total", JNumber 1);
                             ("id", JString "o1")].
Proof.
  split; [vm_compute; reflexivity |].
  split; [vm_compute; reflexivity |].
  split; [vm_compute; reflexivity |].
  split; vm_compute; discriminate.
Qed.

(** C7, amended. For an order that exists, a request body that is an object
    whose checkout identifier can be bound, and a storage client that
    serves the statements, [updateOrder] answers 200 and replaces the whole
    stored payload by the request body with its [id] set to the identifier
    of the path: every field of the stored order other than [id] is the
    request's, and no field of the payload stored before is kept. *)
Theorem updateOrder_replaces_payload (db : TransactionsDb) (id : string)
    (updateRequest : list (string * json)) (fs : list bool) :
  truthy (getOrder id db) = true ->
  bindable (get_prop "checkout_id" updateRequest) = true ->
  no_fault fs ->
  fst (run (OrderService.updateOrder id updateRequest) db fs)
  = Fulfilled (c_json (JObject (set_prop "id" (JString id) updateRequest)) 200) /\
  getOrder id (snd (run (OrderService.updateOrder id updateRequest) db fs))
  = Some (JObject (set_prop "id" (JString id) updateRequest)) /\
  get_prop "id" (set_prop "id" (JString id) updateRequest) = Some (JString id) /\
  (forall k,
     k <> "id" ->
     get_prop k (set_prop "id" (JString id) updateRequest) = get_prop k updateRequest).
Proof.
  intros Hexists Hc Hfs.
  rewrite (updateOrder_no_fault id updateRequest db fs Hc Hfs), Hexists.
  cbn [fst snd]. split; [reflexivity |].
  split; [apply getOrder_saveOrder |].
  split; [apply get_prop_set_prop_eq |].
  intros k Hk. by apply get_prop_set_prop_ne.
Qed.

Lemma updateOrder_replaces_payload_witness :
  fst (run (OrderService.updateOrder "o1" update_request) order_db [])
  = Fulfilled (c_json (JObject (set_prop "id" (JString "o1") update_request)) 200) /\
  getOrder "o1" (snd (run (OrderService.updateOrder "o1" update_request) order_db []))
  = Some (JObject (set_prop "id" (JString "o1") update_request)) /\
  get_prop "id" (set_prop "id" (JString "o1") update_request) = Some (JString "o1") /\
  (forall k,
     k <> "id" ->
     get_prop k (set_prop "id" (JString "o1") update_request)
     = get_prop k update_request).
Proof.
  apply (updateOrder_replaces_payload order_db "o1" update_request []).
  - vm_compute. reflexivity.
  - reflexivity.
  - constructor.
Defined.



(** ** Further properties of the data layer *)



(** Releasing the same quantity twice adds it twice, as long as the
    quantities stay safe integers: the ledger does not make a release
    idempotent. *)
Theorem releaseStock_twice (db : TransactionsDb) (p : string) (a q : Z) :
  getInventory p db = Some a ->
  safe_integer a -> safe_integer q -> safe_integer (a + q) ->
  safe_integer (a + 2 * q) ->
  getInventory p (Real.releaseStock p q (Real.releaseStock p q db)) = Some (a + 2 * q).
Proof.
  rewrite !getInventory_lookup. intros Hp Ha Hq Haq Haqq.
  rewrite (real_releaseStock_exact p q a db Hp Ha Hq Haq).
  rewrite (releaseStock_present p q a db Hp).
  set (db1 := with_inventory _ db).
  assert (H1 : inventory db1 !! p = Some (a + q))
    by (subst db1; simpl; apply lookup_insert_eq).
  assert (Hsum : safe_integer (a + q + q)) by (by replace (a + q + q) with (a + 2 * q) by lia).
  rewrite (real_releaseStock_exact p q (a + q) db1 H1 Haq Hq Hsum).
  rewrite (releaseStock_present p q (a + q) db1 H1).
  simpl. rewrite lookup_insert_eq. f_equal. lia.
Qed.

Lemma releaseStock_twice_witness :
  getInventory "P1" (Real.releaseStock "P1" 3 (Real.releaseStock "P1" 3 (stock_db "P1" 2)))
  = Some (2 + 2 * 3).
Proof.
  apply (releaseStock_twice (stock_db "P1" 2) "P1" 2 3).
  - reflexivity.
  - unfold safe_integer, max_safe_integer. lia.
  - unfold safe_integer, max_safe_integer. lia.
  - unfold safe_integer, max_safe_integer. lia.
  - unfold safe_integer, max_safe_integer. lia.
Defined.

Lemma JSON_parse_not_json_start text : not_json_start text = true -> JSON_parse text = None.
Proof.
  unfold not_json_start, JSON_parse.
  replace (2 * String.length text + 2)%nat with (S (S (2 * String.length text))) by lia.
  cbn [parse_value].
  destruct (skip_ws text) as [| c r]; [reflexivity |].
  destruct c as [[] [] [] [] [] [] [] []]; try discriminate; intros _;
    reflexivity.
Qed.

(** A stored checkout or order whose data is blank, or starts after its
    blanks with a character that cannot begin a JSON value, is reported as
    undefined, like a missing one: the parse error is caught. *)
Theorem getCheckoutSession_corrupt (db : TransactionsDb) (id data : string) :
  not_json_start data = true ->
  (forall row,
     checkouts db !! id = Some row -> cs_data row = data ->
     getCheckoutSession id db = None) /\
  (orders db !! id = Some data -> getOrder id db = None).
Proof.
  intros Hdata. split.
  - intros row Hrow <-.
    by rewrite getCheckoutSession_lookup, Hrow, JSON_parse_not_json_start.
  - intros Hrow. by rewrite getOrder_lookup, Hrow, JSON_parse_not_json_start.
Qed.

Lemma getCheckoutSession_corrupt_witness :
  (forall row,
     checkouts (checkout_db "c1" "<html>") !! "c1" = Some row ->
     cs_data row = "<html>" ->
     getCheckoutSession "c1" (checkout_db "c1" "<html>") = None) /\
  (orders (checkout_db "c1" "<html>") !! "c1" = Some "<html>" ->
   getOrder "c1" (checkout_db "c1" "<html>") = None).
Proof.
  apply (getCheckoutSession_corrupt (checkout_db "c1" "<html>") "c1" "<html>").
  reflexivity.
Defined.

(** ** Inventory ledger: what an operation touches *)

Lemma alter_present {V} (f : V -> V) (k : string) (a : V) (m : gmap string V) :
  m !! k = Some a -> alter f k m = <[k := f a]> m.
Proof.
  intros Hk. apply map_eq. intros j. rewrite lookup_alter, lookup_insert.
  case_decide; [subst; by rewrite Hk | done].
Qed.

Lemma alter_absent {V} (f : V -> V) (k : string) (m : gmap string V) :
  m !! k = None -> alter f k m = m.
Proof.
  intros Hk. apply map_eq. intros j. rewrite lookup_alter.
  case_decide; [subst; by rewrite Hk | done].
Qed.

(** A ledger operation applies one function to the quantity of its product,
    when the product has a row. *)
Lemma apply_op_alter (op : StockOp) (db : TransactionsDb) :
  apply_op op db =
  with_inventory (alter (op_quantity_after op) (op_product op) (inventory db)) db.
Proof.
  destruct op as [p q | p q]; simpl.
  - destruct (inventory db !! p) as [a |] eqn:Hp.
    + rewrite (alter_present _ p a _ Hp). unfold op_quantity_after.
      destruct (Z.leb_spec q a) as [Hle | Hgt].
      * by rewrite (reserveStock_enough p q a db Hp Hle).
      * rewrite (reserveStock_short p q a db Hp Hgt). simpl.
        rewrite insert_id by done. by rewrite with_inventory_id.
    + rewrite (alter_absent _ p _ Hp), (reserveStock_missing p q db Hp).
      simpl. by rewrite with_inventory_id.
  - destruct (inventory db !! p) as [a |] eqn:Hp.
    + by rewrite (alter_present _ p a _ Hp), (releaseStock_present p q a db Hp).
    + rewrite (alter_absent _ p _ Hp), (releaseStock_missing p q db Hp).
      by rewrite with_inventory_id.
Qed.

(** A reservation or a release changes at most the quantity of its own
    product: the other products keep their quantities, no inventory row is
    created or deleted, and the other tables are untouched. *)
Theorem ledger_operation_frame (op : StockOp) (db : TransactionsDb) :
  (forall p, p <> op_product op ->
     getInventory p (apply_op op db) = getInventory p db) /\
  dom (inventory (apply_op op db)) = dom (inventory db) /\
  checkouts (apply_op op db) = checkouts db /\
  orders (apply_op op db) = orders db /\
  request_logs (apply_op op db) = request_logs db /\
  idempotency_keys (apply_op op db) = idempotency_keys db.
Proof.
  rewrite apply_op_alter. simpl. split; [| split; [| done]].
  - intros p Hp. rewrite !getInventory_lookup. simpl.
    by rewrite lookup_alter_ne.
  - apply dom_alter_L.
Qed.

(** Two operations on different products give the same database and the same
    results in either order. *)
Theorem ledger_operations_commute (op1 op2 : StockOp) (db : TransactionsDb) :
  op_product op1 <> op_product op2 ->
  apply_op op1 (apply_op op2 db) = apply_op op2 (apply_op op1 db) /\
  op_result op1 (apply_op op2 db) = op_result op1 db /\
  op_result op2 (apply_op op1 db) = op_result op2 db.
Proof.
  intros Hne.
  assert (Hres : forall a b d,
            op_product a <> op_product b ->
            op_result a (apply_op b d) = op_result a d).
  { intros a b d Hab. destruct a as [p q | p q]; [| reflexivity]. simpl in *.
    rewrite (apply_op_alter b d). f_equal.
    unfold reserveStock, sql_update. simpl.
    rewrite lookup_alter_ne by done.
    destruct (inventory d !! p) as [x |]; [| reflexivity].
    by destruct (q <=? x). }
  split; [| split; [by apply Hres | by apply Hres]].
  rewrite (apply_op_alter op1 (apply_op op2 db)), (apply_op_alter op2 (apply_op op1 db)).
  rewrite (apply_op_alter op2 db), (apply_op_alter op1 db).
  destruct db as [inv ? ? ? ?]. unfold with_inventory. simpl. f_equal.
  by apply alter_alter_ne.
Qed.

Lemma ledger_operations_commute_witness :
  apply_op (Reserve "P1" 3) (apply_op (Release "P2" 4) (stock_db "P1" 5))
  = apply_op (Release "P2" 4) (apply_op (Reserve "P1" 3) (stock_db "P1" 5)) /\
  op_result (Reserve "P1" 3) (apply_op (Release "P2" 4) (stock_db "P1" 5))
  = op_result (Reserve "P1" 3) (stock_db "P1" 5) /\
  op_result (Release "P2" 4) (apply_op (Reserve "P1" 3) (stock_db "P1" 5))
  = op_result (Release "P2" 4) (stock_db "P1" 5).
Proof.
  apply (ledger_operations_commute (Reserve "P1" 3) (Release "P2" 4) (stock_db "P1" 5)).
  discriminate.
Defined.

(** A release for a product without an inventory row changes nothing: no row
    is created and the quantity is lost. *)
Theorem releaseStock_unknown_product (db : TransactionsDb) (p : string) (q : Z) :
  getInventory p db = None ->
  releaseStock p q db = db /\ getInventory p (releaseStock p q db) = None.
Proof.
  intros Hp. rewrite getInventory_lookup in Hp.
  rewrite (releaseStock_missing p q db Hp). by rewrite getInventory_lookup.
Qed.

Lemma releaseStock_unknown_product_witness :
  releaseStock "P2" 3 (stock_db "P1" 5) = stock_db "P1" 5 /\
  getInventory "P2" (releaseStock "P2" 3 (stock_db "P1" 5)) = None.
Proof.
  apply (releaseStock_unknown_product (stock_db "P1" 5) "P2" 3). reflexivity.
Defined.

(** The sign of the quantity is not checked: a reservation of a negative
    quantity on a product with a non-negative stock is granted and raises
    the stock by that amount (the quantities being safe integers). *)
Theorem reserveStock_negative_quantity (db : TransactionsDb) (p : string) (a q : Z) :
  getInventory p db = Some a ->
  0 <= a ->
  q < 0 ->
  safe_integer a -> safe_integer q -> safe_integer (a - q) ->
  fst (Real.reserveStock p q db) = true /\
  getInventory p (snd (Real.reserveStock p q db)) = Some (a + Z.abs q) /\
  a < a + Z.abs q.
Proof.
  intros Hp Hpos Hneg Ha Hq Haq. rewrite getInventory_lookup in Hp.
  rewrite (real_reserveStock_exact p q a db Hp Ha Hq Haq).
  rewrite (reserveStock_enough p q a db Hp) by lia. simpl.
  rewrite getInventory_lookup. simpl. rewrite lookup_insert_eq.
  split; [reflexivity |]. split; [f_equal |]; lia.
Qed.

Lemma reserveStock_negative_quantity_witness :
  fst (Real.reserveStock "P1" (-2) (stock_db "P1" 5)) = true /\
  getInventory "P1" (snd (Real.reserveStock "P1" (-2) (stock_db "P1" 5)))
  = Some (5 + Z.abs (-2)) /\
  5 < 5 + Z.abs (-2).
Proof.
  apply (reserveStock_negative_quantity (stock_db "P1" 5) "P1" 5 (-2)).
  - reflexivity.
  - lia.
  - lia.
  - unfold safe_integer, max_safe_integer. lia.
  - unfold safe_integer, max_safe_integer. lia.
  - unfold safe_integer, max_safe_integer. lia.
Defined.
(** ** Orders in the data layer *)

(** [getOrder] after [saveOrder] under the same identifier returns the order
    saved; a save under another identifier does not change it; without a row
    it is undefined; and [saveOrder] leaves the other tables as they are. *)
Theorem saveOrder_getOrder_roundtrip :
  (forall db id order, getOrder id (saveOrder id order db) = Some order) /\
  (forall db id id' order,
     id' <> id -> getOrder id (saveOrder id' order db) = getOrder id db) /\
  (forall db id, orders db !! id = None -> getOrder id db = None) /\
  (forall db id order,
     inventory (saveOrder id order db) = inventory db /\
     checkouts (saveOrder id order db) = checkouts db /\
     request_logs (saveOrder id order db) = request_logs db /\
     idempotency_keys (saveOrder id order db) = idempotency_keys db).
Proof.
  split; [intros; apply getOrder_saveOrder |].
  split; [| split].
  - intros db id id' order Hne. rewrite !getOrder_lookup. unfold saveOrder. simpl.
    by rewrite sql_upsert_lookup_ne.
  - intros db id Hid. by rewrite getOrder_lookup, Hid.
  - intros db id order. by repeat split.
Qed.

(** ** Idempotency keys and checkouts in the data layer *)

(** A key without a row has no idempotency record; saving a record under one
    key does not change what the lookup of another key returns (the keys
    holding no NUL character); and [saveIdempotencyRecord] leaves the other
    tables as they are. *)
Theorem idempotency_record_other_keys :
  (forall db k,
     no_nul k = true ->
     idempotency_keys db !! k = None -> getIdempotencyRecord k db = Fulfilled None) /\
  (forall db k k' hash status body,
     no_nul k = true -> no_nul k' = true ->
     k' <> k ->
     getIdempotencyRecord k (saveIdempotencyRecord k' hash status body db)
     = getIdempotencyRecord k db) /\
  (forall db k hash status body,
     inventory (saveIdempotencyRecord k hash status body db) = inventory db /\
     checkouts (saveIdempotencyRecord k hash status body db) = checkouts db /\
     orders (saveIdempotencyRecord k hash status body db) = orders db /\
     request_logs (saveIdempotencyRecord k hash status body db) = request_logs db).
Proof.
  split; [| split].
  - intros db k _ Hk. by rewrite getIdempotencyRecord_lookup, Hk.
  - intros db k k' hash status body _ _ Hne. rewrite !getIdempotencyRecord_lookup.
    unfold saveIdempotencyRecord. simpl. by rewrite sql_upsert_lookup_ne.
  - intros. by repeat split.
Qed.

(** [saveCheckout] writes one row: the row of the identifier holds the
    status given and a data column that parses to the payload, the rows of
    the other identifiers and the other tables are unchanged; and what
    [getCheckoutSession] returns does not depend on the status saved. *)
Theorem saveCheckout_writes_one_row :
  (forall db id status payload,
     exists row,
       checkouts (saveCheckout id status payload db) !! id = Some row /\
       cs_status row = status /\
       JSON_parse (cs_data row) = Some payload) /\
  (forall db id id' status payload,
     id' <> id ->
     checkouts (saveCheckout id' status payload db) !! id = checkouts db !! id) /\
  (forall db id status payload,
     inventory (saveCheckout id status payload db) = inventory db /\
     orders (saveCheckout id status payload db) = orders db /\
     request_logs (saveCheckout id status payload db) = request_logs db /\
     idempotency_keys (saveCheckout id status payload db) = idempotency_keys db) /\
  (forall db id status status' payload,
     getCheckoutSession id (saveCheckout id status payload db)
     = getCheckoutSession id (saveCheckout id status' payload db)).
Proof.
  split; [| split; [| split]].
  - intros db id status payload.
    exists {| cs_status := status; cs_data := JSON_stringify payload |}.
    split; [| split; [reflexivity | apply JSON_parse_stringify]].
    unfold saveCheckout. simpl. by rewrite sql_upsert_lookup.
  - intros db id id' status payload Hne. unfold saveCheckout. simpl.
    by rewrite sql_upsert_lookup_ne.
  - intros. by repeat split.
  - intros. by rewrite !getCheckoutSession_saveCheckout.
Qed.

(** ** Order service: log, reads and writes *)


Lemma getOrder_database id db fs :
  snd (run (OrderService.getOrder id) db fs) =
  if first_rejected fs then db else logged (get_log id) db.
Proof. rewrite getOrder_run. by destruct fs as [| [] [| [] later]]. Qed.

(** A handler adds at most one row to the request log, at its end, and never
    changes an earlier row.  The GET handler adds its row exactly when the
    audit write is served, also when the order is not found or the read is
    rejected.  The row of [updateOrder] carries the method and the path, and
    a checkout identifier that is a non-empty string is bound as that
    text. *)
Theorem handlers_append_to_log (db : TransactionsDb) (id : string)
    (body : Outcome json) (fs : list bool) :
  (request_logs (snd (run (OrderService.updateOrder_body id body) db fs))
   = request_logs db \/
   exists row,
     log_method row = "PUT" /\ log_url row = "/orders/" ++ id /\
     request_logs (snd (run (OrderService.updateOrder_body id body) db fs))
     = (request_logs db ++ [row])%list) /\
  request_logs (snd (run (OrderService.getOrder id) db fs))
  = (if first_rejected fs then request_logs db
     else (request_logs db ++ [get_log id])%list) /\
  (forall updateRequest s,
     body = Fulfilled (JObject updateRequest) ->
     get_prop "checkout_id" updateRequest = Some (JString s) ->
     s <> EmptyString ->
     first_rejected fs = false ->
     exists row,
       log_method row = "PUT" /\ log_url row = "/orders/" ++ id /\
       log_checkout_id row = SqlText s /\
       request_logs (snd (run (OrderService.updateOrder_body id body) db fs))
       = (request_logs db ++ [row])%list).
Proof.
  split; [| split].
  - destruct (updateOrder_body_cases id body db fs)
      as [[e ->] | (row & Hm & Hu & [[e ->] | [[_ ->] | (_ & updated & ->)]])];
      cbn [snd]; [by left | right; by exists row ..].
  - rewrite getOrder_database. by destruct (first_rejected fs).
  - intros updateRequest s -> Hs Hne Hfirst.
    exists {| log_method := "PUT"; log_url := "/orders/" ++ id;
              log_checkout_id := SqlText s;
              log_payload := JSON_stringify (JObject updateRequest) |}.
    repeat (split; [reflexivity |]).
    unfold run, OrderService.updateOrder_body, bind, lift, await_call.
    cbn [OrderService.read_checkout_id world_db].
    rewrite logRequest_bindable by (by rewrite Hs).
    assert (Hbound : bound_checkout_id (get_prop "checkout_id" updateRequest) = SqlText s).
    { rewrite Hs. unfold bound_checkout_id, or_null. simpl.
      by destruct (String.eqb_spec s EmptyString). }
    rewrite Hbound. unfold await, query, command, ret.
    destruct fs as [| [] [| [] [| [] later]]]; try discriminate;
      cbn [world_faults world_db]; try reflexivity;
      rewrite getOrder_logged; destruct (truthy (getOrder id db)); reflexivity.
Qed.

(** The GET handler only reads the orders: under every schedule of storage
    faults it leaves the orders, inventory, checkouts and idempotency tables
    as they were. *)
Theorem getOrder_handler_reads_only (db : TransactionsDb) (id : string) (fs : list bool) :
  orders (snd (run (OrderService.getOrder id) db fs)) = orders db /\
  inventory (snd (run (OrderService.getOrder id) db fs)) = inventory db /\
  checkouts (snd (run (OrderService.getOrder id) db fs)) = checkouts db /\
  idempotency_keys (snd (run (OrderService.getOrder id) db fs)) = idempotency_keys db.
Proof. rewrite getOrder_database. by destruct (first_rejected fs). Qed.


(** An order row whose data parses to a falsy value (null, false, 0 or the
    empty string) is treated as missing: both handlers answer 404 when the
    storage client serves them, and [updateOrder] leaves the orders table as
    it is under every schedule and for every body, so such a row is never
    repaired by an update. *)
Theorem unreadable_order_is_not_found (db : TransactionsDb) (id data : string)
    (v : json) (body : Outcome json) (fs : list bool) :
  orders db !! id = Some data ->
  JSON_parse data = Some v ->
  truthy (Some v) = false ->
  orders (snd (run (OrderService.updateOrder_body id body) db fs)) = orders db /\
  (no_fault fs ->
   fst (run (OrderService.getOrder id) db fs) = Fulfilled not_found /\
   (forall updateRequest checkoutId,
      body = Fulfilled updateRequest ->
      OrderService.read_checkout_id updateRequest = Fulfilled checkoutId ->
      bindable checkoutId = true ->
      fst (run (OrderService.updateOrder_body id body) db fs) = Fulfilled not_found)).
Proof.
  intros Hrow Hparse Hfalsy.
  assert (Hget : getOrder id db = Some v) by (by rewrite getOrder_lookup, Hrow).
  split.
  - destruct (updateOrder_body_frame id body db fs)
      as (_ & _ & _ & [Horders | [Hexists _]]); [exact Horders | congruence].
  - intros Hfs. split.
    + rewrite (getOrder_no_fault id db fs Hfs), Hget. cbn [fst]. by rewrite Hfalsy.
    + intros updateRequest checkoutId -> Hread Hc.
      destruct (updateOrder_body_no_fault id updateRequest checkoutId db fs Hread Hc Hfs)
        as (row & _ & _ & _ & _ & ->).
      by rewrite Hget, Hfalsy.
Qed.

Lemma unreadable_order_is_not_found_witness :
  orders (snd (run (OrderService.updateOrder_body "o1"
                      (Fulfilled (JObject update_request))) null_order_db []))
  = orders null_order_db /\
  (no_fault [] ->
   fst (run (OrderService.getOrder "o1") null_order_db []) = Fulfilled not_found /\
   (forall updateRequest checkoutId,
      Fulfilled (JObject update_request) = Fulfilled updateRequest ->
      OrderService.read_checkout_id updateRequest = Fulfilled checkoutId ->
      bindable checkoutId = true ->
      fst (run (OrderService.updateOrder_body "o1"
                  (Fulfilled (JObject update_request))) null_order_db [])
      = Fulfilled not_found)).
Proof.
  apply (unreadable_order_is_not_found null_order_db "o1" "null" JNull
           (Fulfilled (JObject update_request)) []).
  - reflexivity.
  - vm_compute. reflexivity.
  - reflexivity.
Defined.

(** When [updateOrder] is rejected, whatever the body and whichever call
    failed, the orders table is as before: the save is the last statement
    sent, so a rejected update has written no order. *)
Theorem updateOrder_rejected_writes_nothing (db : TransactionsDb) (id : string)
    (body : Outcome json) (fs : list bool) :
  rejected (fst (run (OrderService.updateOrder_body id body) db fs)) = true ->
  orders (snd (run (OrderService.updateOrder_body id body) db fs)) = orders db.
Proof.
  destruct (updateOrder_body_cases id body db fs)
    as [[e ->] | (row & _ & _ & [[e ->] | [[_ ->] | (_ & updated & ->)]])];
    cbn [fst snd rejected]; first [reflexivity | discriminate].
Qed.

Lemma updateOrder_rejected_writes_nothing_witness :
  orders (snd (run (OrderService.updateOrder_body "o1"
                      (Fulfilled (JObject update_request))) order_db
                 [false; false; true]))
  = orders order_db.
Proof.
  apply (updateOrder_rejected_writes_nothing order_db "o1"
           (Fulfilled (JObject update_request)) [false; false; true]).
  vm_compute. reflexivity.
Defined.

(** After an update of an existing order whose checkout identifier can be
    bound, the GET handler answers 200 with the body the update answered:
    the request with its [id] set to the identifier of the path. *)
Theorem getOrder_after_updateOrder (db : TransactionsDb) (id : string)
    (updateRequest : list (string * json)) :
  truthy (getOrder id db) = true ->
  bindable (get_prop "checkout_id" updateRequest) = true ->
  fst (run (OrderService.getOrder id)
         (snd (run (OrderService.updateOrder id updateRequest) db [])) [])
  = Fulfilled (c_json (JObject (set_prop "id" (JString id) updateRequest)) 200) /\
  fst (run (OrderService.getOrder id)
         (snd (run (OrderService.updateOrder id updateRequest) db [])) [])
  = fst (run (OrderService.updateOrder id updateRequest) db []).
Proof.
  intros Hexists Hc.
  rewrite (updateOrder_no_fault id updateRequest db [] Hc ltac:(constructor)), Hexists.
  cbn [fst snd]. rewrite (getOrder_no_fault id _ [] ltac:(constructor)).
  cbn [fst]. by rewrite getOrder_saveOrder.
Qed.

Lemma getOrder_after_updateOrder_witness :
  fst (run (OrderService.getOrder "o1")
         (snd (run (OrderService.updateOrder "o1" update_request) order_db [])) [])
  = Fulfilled (c_json (JObject (set_prop "id" (JString "o1") update_request)) 200) /\
  fst (run (OrderService.getOrder "o1")
         (snd (run (OrderService.updateOrder "o1" update_request) order_db [])) [])
  = fst (run (OrderService.updateOrder "o1" update_request) order_db []).
Proof.
  apply (getOrder_after_updateOrder order_db "o1" update_request).
  - vm_compute. reflexivity.
  - reflexivity.
Defined.

Lemma sql_upsert_excluded {V} (k : string) (row : V) (t : gmap string V) :
  sql_upsert k row (fun _ excluded => excluded) t = <[k := row]> t.
Proof. unfold sql_upsert. by destruct (t !! k). Qed.

(** Sending the same update twice is the same as sending it once, as far as
    the orders go: for an existing order and a checkout identifier that can
    be bound, the second call answers what the first answered and leaves the
    orders table as the first left it. *)
Theorem updateOrder_twice (db : TransactionsDb) (id : string)
    (updateRequest : list (string * json)) :
  truthy (getOrder id db) = true ->
  bindable (get_prop "checkout_id" updateRequest) = true ->
  fst (run (OrderService.updateOrder id updateRequest)
         (snd (run (OrderService.updateOrder id updateRequest) db [])) [])
  = fst (run (OrderService.updateOrder id updateRequest) db []) /\
  orders (snd (run (OrderService.updateOrder id updateRequest)
                 (snd (run (OrderService.updateOrder id updateRequest) db [])) []))
  = orders (snd (run (OrderService.updateOrder id updateRequest) db [])).
Proof.
  intros Hexists Hc.
  rewrite (updateOrder_no_fault id updateRequest db [] Hc ltac:(constructor)), Hexists.
  cbn [fst snd].
  rewrite (updateOrder_no_fault id updateRequest _ [] Hc ltac:(constructor)).
  rewrite getOrder_saveOrder. cbn [truthy fst snd]. split; [reflexivity |].
  unfold saveOrder. simpl. rewrite !sql_upsert_excluded. apply insert_insert_eq.
Qed.

Lemma updateOrder_twice_witness :
  fst (run (OrderService.updateOrder "o1" update_request)
         (snd (run (OrderService.updateOrder "o1" update_request) order_db [])) [])
  = fst (run (OrderService.updateOrder "o1" update_request) order_db []) /\
  orders (snd (run (OrderService.updateOrder "o1" update_request)
                 (snd (run (OrderService.updateOrder "o1" update_request) order_db [])) []))
  = orders (snd (run (OrderService.updateOrder "o1" update_request) order_db [])).
Proof.
  apply (updateOrder_twice order_db "o1" update_request).
  - vm_compute. reflexivity.
  - reflexivity.
Defined.

(** ** Clients and schema *)

Lemma open_execute_on_same c f (s : Storage) :
  open_database (client_url c) (execute_on c f s) = f (open_database (client_url c) s).
Proof. unfold execute_on, open_database at 1. by rewrite lookup_insert_eq. Qed.

Lemma open_execute_on_other url c f (s : Storage) :
  url <> client_url c ->
  open_database url (execute_on c f s) = open_database url s.
Proof.
  intros Hne. unfold execute_on, open_database. by rewrite lookup_insert_ne.
Qed.

Lemma grown_refl {A} (empty : A) t : grown empty t t.
Proof. by left. Qed.

Lemma grown_trans {A} (empty : A) t1 t2 t3 :
  grown empty t1 t2 -> grown empty t2 t3 -> grown empty t1 t3.
Proof.
  intros [-> | [-> ->]] [-> | [H ->]];
    first [by left | by right | discriminate].
Qed.

Lemma grown_if_not_exists {A} (empty : A) t : grown empty t (if_not_exists empty t).
Proof. destruct t; [by left | by right]. Qed.

Lemma grown_present {A} (empty : A) t t' :
  grown empty t t' -> is_Some t' -> t' = Some (rows_or empty t).
Proof.
  intros [-> | [-> ->]] [rows Hrows]; [| reflexivity].
  by rewrite Hrows.
Qed.

Lemma schema_grows_refl d : schema_grows d d.
Proof. repeat split; apply grown_refl. Qed.

Lemma schema_grows_trans d1 d2 d3 :
  schema_grows d1 d2 -> schema_grows d2 d3 -> schema_grows d1 d3.
Proof.
  intros (H1 & H2 & H3 & H4 & H5 & H6) (G1 & G2 & G3 & G4 & G5 & G6).
  repeat split; eapply grown_trans; eassumption.
Qed.

Lemma schema_grows_create_table t d : schema_grows d (create_table t d).
Proof.
  destruct t; repeat split; simpl;
    first [apply grown_if_not_exists | apply grown_refl].
Qed.

Lemma schema_grows_execute_on url c t (s : Storage) :
  schema_grows (open_database url s)
    (open_database url (execute_on c (create_table t) s)).
Proof.
  destruct (decide (url = client_url c)) as [-> | Hne].
  - rewrite open_execute_on_same. apply schema_grows_create_table.
  - rewrite open_execute_on_other by done. apply schema_grows_refl.
Qed.

Lemma schema_grows_execute_all statements fs (s : Storage) url :
  schema_grows (open_database url s)
    (open_database url (snd (execute_all statements fs s))).
Proof.
  revert fs s. induction statements as [| [c t] later IH]; intros fs s; simpl.
  - apply schema_grows_refl.
  - destruct fs as [| [] fs'];
      [| apply schema_grows_refl |];
      (eapply schema_grows_trans; [apply schema_grows_execute_on | apply IH]).
Qed.

Lemma has_table_create_table t d : has_table t (create_table t d) = true.
Proof.
  destruct t; simpl; apply bool_decide_eq_true;
    match goal with |- is_Some (if_not_exists _ ?x) => destruct x; simpl; eauto end.
Qed.

Lemma has_table_grows t d d' :
  schema_grows d d' -> has_table t d = true -> has_table t d' = true.
Proof.
  intros (H1 & H2 & H3 & H4 & H5 & H6).
  destruct t; simpl; rewrite !bool_decide_eq_true; intros [rows Hrows];
    match goal with
    | H : grown _ ?x _, Hx : ?x = Some _ |- _ =>
        rewrite Hx in H; destruct H as [-> | [? _]]; [eauto | discriminate]
    end.
Qed.

(** With no statement rejected, every statement is fulfilled and its table
    exists afterwards in the database of its client. *)
Lemma execute_all_no_fault statements fs (s : Storage) :
  no_fault fs ->
  fst (execute_all statements fs s) = Fulfilled tt /\
  Forall (fun ct =>
            has_table (snd ct)
              (open_database (client_url (fst ct)) (snd (execute_all statements fs s)))
            = true)
    statements.
Proof.
  revert fs s. induction statements as [| [c t] later IH]; intros fs s Hfs; simpl.
  - split; [reflexivity | constructor].
  - assert (Hstep :
      match fs with
      | true :: _ => (Rejected storage_error, s)
      | _ => execute_all later (tail fs) (execute_on c (create_table t) s)
      end = execute_all later (tail fs) (execute_on c (create_table t) s)).
    { destruct Hfs as [| ? ? ->]; reflexivity. }
    rewrite Hstep.
    assert (Htail : no_fault (tail fs)) by (destruct Hfs; [constructor | done]).
    destruct (IH (tail fs) (execute_on c (create_table t) s) Htail) as [Hok Hall].
    split; [exact Hok |]. constructor; [| exact Hall]. simpl.
    apply (has_table_grows t
             (open_database (client_url c) (execute_on c (create_table t) s))).
    + apply schema_grows_execute_all.
    + rewrite open_execute_on_same. apply has_table_create_table.
Qed.

Lemma execute_on_existing c t (s : Storage) :
  has_table t (open_database (client_url c) s) = true ->
  execute_on c (create_table t) s = s.
Proof.
  unfold execute_on, open_database. intros Hhas.
  destruct (s !! client_url c) as [d |] eqn:Hd.
  - apply insert_id. rewrite Hd. f_equal.
    destruct d as [p i c0 o l k]; destruct t; simpl in *;
      apply bool_decide_eq_true in Hhas; destruct Hhas as [rows ->]; reflexivity.
  - destruct t; discriminate.
Qed.

Lemma execute_all_existing statements (s : Storage) :
  Forall (fun ct => has_table (snd ct) (open_database (client_url (fst ct)) s) = true)
    statements ->
  execute_all statements [] s = (Fulfilled tt, s).
Proof.
  induction 1 as [| [c t] later Hhas _ IH]; simpl; [reflexivity |].
  by rewrite (execute_on_existing c t s Hhas).
Qed.

Lemma initDbs_unfold pp tp env fs (s : Storage) :
  initDbs pp tp env fs s =
  (fst (execute_all (schema_statements (products_client pp env)
                       (transactions_client tp env)) fs s),
   {| productsClient := Some (products_client pp env);
      transactionsClient := Some (transactions_client tp env) |},
   snd (execute_all (schema_statements (products_client pp env)
                       (transactions_client tp env)) fs s)).
Proof.
  unfold initDbs, initDbs_with, createClient, products_client, transactions_client,
    products_url, transactions_url.
  by destruct (execute_all _ fs s).
Qed.

(** When both databases can be opened, the handles [initDbs] starts from do
    not matter. *)
Lemma initDbs_with_openable openable handles pp tp env fs (s : Storage) :
  openable (products_url pp env) = true ->
  openable (transactions_url tp env) = true ->
  initDbs_with openable handles pp tp env fs s = initDbs pp tp env fs s.
Proof.
  unfold initDbs, initDbs_with, createClient, products_url, transactions_url.
  by intros -> ->.
Qed.

(** When both databases can be opened and no statement is rejected,
    [initDbs] is fulfilled, both handles are set, and the six tables exist
    in the databases of their clients: a table that existed keeps its rows,
    a table that did not is empty. *)
Theorem initDbs_creates_schema (openable : string -> bool) (handles : Clients)
    (pp tp : string) (env : Env) (fs : list bool) (s : Storage) :
  openable (products_url pp env) = true ->
  openable (transactions_url tp env) = true ->
  no_fault fs ->
  init_outcome (initDbs_with openable handles pp tp env fs s) = Fulfilled tt /\
  getProductsDb (init_handles (initDbs_with openable handles pp tp env fs s))
  = Fulfilled (products_client pp env) /\
  getTransactionsDb (init_handles (initDbs_with openable handles pp tp env fs s))
  = Fulfilled (transactions_client tp env) /\
  tbl_products
    (open_database (products_url pp env)
       (init_storage (initDbs_with openable handles pp tp env fs s)))
  = Some (rows_or ∅ (tbl_products (open_database (products_url pp env) s))) /\
  transactions_db
    (open_database (transactions_url tp env)
       (init_storage (initDbs_with openable handles pp tp env fs s)))
  = Some {| inventory :=
              rows_or ∅ (tbl_inventory (open_database (transactions_url tp env) s));
            checkouts :=
              rows_or ∅ (tbl_checkouts (open_database (transactions_url tp env) s));
            orders := rows_or ∅ (tbl_orders (open_database (transactions_url tp env) s));
            request_logs :=
              rows_or [] (tbl_request_logs (open_database (transactions_url tp env) s));
            idempotency_keys :=
              rows_or ∅
                (tbl_idempotency_keys (open_database (transactions_url tp env) s)) |}.
Proof.
  intros Hpo Hto Hfs. rewrite (initDbs_with_openable openable handles) by assumption.
  rewrite initDbs_unfold. unfold init_outcome, init_handles, init_storage.
  cbn [fst snd].
  set (stmts := schema_statements _ _).
  destruct (execute_all_no_fault stmts fs s Hfs) as [Hok Hall].
  split; [exact Hok |]. split; [reflexivity |]. split; [reflexivity |].
  pose proof (schema_grows_execute_all stmts fs s (products_url pp env))
    as (Gp & _).
  pose proof (schema_grows_execute_all stmts fs s (transactions_url tp env))
    as (_ & Gi & Gc & Go & Gl & Gk).
  subst stmts. unfold schema_statements in Hall.
  repeat match goal with
         | H : Forall _ (_ :: _) |- _ => apply Forall_cons in H; destruct H as [? H]
         end.
  simpl in *.
  repeat match goal with
         | H : bool_decide _ = true |- _ => apply bool_decide_eq_true in H
         end.
  split; [by apply grown_present |].
  unfold transactions_db.
  rewrite (grown_present _ _ _ Gi), (grown_present _ _ _ Gc), (grown_present _ _ _ Go),
    (grown_present _ _ _ Gl), (grown_present _ _ _ Gk) by assumption.
  reflexivity.
Qed.

Lemma initDbs_creates_schema_witness :
  init_outcome
    (initDbs_with (fun _ => true) no_clients "products.db" "transactions.db" local_env []
       catalogue)
  = Fulfilled tt /\
  getProductsDb
    (init_handles
       (initDbs_with (fun _ => true) no_clients "products.db" "transactions.db" local_env []
          catalogue))
  = Fulfilled (products_client "products.db" local_env) /\
  getTransactionsDb
    (init_handles
       (initDbs_with (fun _ => true) no_clients "products.db" "transactions.db" local_env []
          catalogue))
  = Fulfilled (transactions_client "transactions.db" local_env) /\
  tbl_products
    (open_database (products_url "products.db" local_env)
       (init_storage
          (initDbs_with (fun _ => true) no_clients "products.db" "transactions.db"
             local_env [] catalogue)))
  = Some (rows_or ∅
            (tbl_products (open_database (products_url "products.db" local_env) catalogue))) /\
  transactions_db
    (open_database (transactions_url "transactions.db" local_env)
       (init_storage
          (initDbs_with (fun _ => true) no_clients "products.db" "transactions.db"
             local_env [] catalogue)))
  = Some {| inventory :=
              rows_or ∅
                (tbl_inventory
                   (open_database (transactions_url "transactions.db" local_env) catalogue));
            checkouts :=
              rows_or ∅
                (tbl_checkouts
                   (open_database (transactions_url "transactions.db" local_env) catalogue));
            orders :=
              rows_or ∅
                (tbl_orders
                   (open_database (transactions_url "transactions.db" local_env) catalogue));
            request_logs :=
              rows_or []
                (tbl_request_logs
                   (open_database (transactions_url "transactions.db" local_env) catalogue));
            idempotency_keys :=
              rows_or ∅
                (tbl_idempotency_keys
                   (open_database (transactions_url "transactions.db" local_env)
                      catalogue)) |}.
Proof.
  apply (initDbs_creates_schema (fun _ => true) no_clients "products.db" "transactions.db"
           local_env [] catalogue).
  - reflexivity.
  - reflexivity.
  - constructor.
Defined.

(** Under every schedule of rejections, in every database of the storage,
    [initDbs] only adds empty tables: a table that exists keeps exactly its
    rows and no table is dropped. *)
Theorem initDbs_keeps_rows (pp tp : string) (env : Env) (fs : list bool)
    (s : Storage) (url : string) :
  schema_grows (open_database url s)
    (open_database url (init_storage (initDbs pp tp env fs s))).
Proof.
  rewrite initDbs_unfold. unfold init_storage. cbn [snd].
  apply schema_grows_execute_all.
Qed.

(** Running [initDbs] again, with the same paths and environment, changes
    nothing: same handles, same storage. *)
Theorem initDbs_idempotent (pp tp : string) (env : Env) (s : Storage) :
  initDbs pp tp env [] (init_storage (initDbs pp tp env [] s)) = initDbs pp tp env [] s.
Proof.
  rewrite !initDbs_unfold. unfold init_storage. cbn [snd].
  set (stmts := schema_statements _ _).
  destruct (execute_all_no_fault stmts [] s ltac:(constructor)) as [Hok Hall].
  rewrite (execute_all_existing stmts _ Hall). cbn [fst snd]. by rewrite Hok.
Qed.

(** Before [initDbs] both getters throw.  [initDbs] assigns each handle as
    soon as its client is created, before it sends any statement.  When
    both databases can be opened, both getters return a client afterwards,
    even when [initDbs] was rejected, and when its first statement is
    rejected the storage is untouched.  When the products database can be
    opened and the transactions database cannot, [initDbs] is rejected with
    the products handle assigned and the transactions handle as it was, so
    that from null handles [getTransactionsDb] still throws.  When the
    products database cannot be opened, both handles are as they were.  In
    these two cases no statement is sent. *)
Theorem initDbs_sets_handles_first (openable : string -> bool) (handles : Clients)
    (pp tp : string) (env : Env) (fs : list bool) (s : Storage) :
  getProductsDb no_clients = Rejected products_not_initialized /\
  getTransactionsDb no_clients = Rejected transactions_not_initialized /\
  (openable (products_url pp env) = true ->
   openable (transactions_url tp env) = true ->
   getProductsDb (init_handles (initDbs_with openable handles pp tp env fs s))
   = Fulfilled (products_client pp env) /\
   getTransactionsDb (init_handles (initDbs_with openable handles pp tp env fs s))
   = Fulfilled (transactions_client tp env) /\
   (first_rejected fs = true ->
    rejected (init_outcome (initDbs_with openable handles pp tp env fs s)) = true /\
    init_storage (initDbs_with openable handles pp tp env fs s) = s)) /\
  (openable (products_url pp env) = true ->
   openable (transactions_url tp env) = false ->
   rejected (init_outcome (initDbs_with openable handles pp tp env fs s)) = true /\
   getProductsDb (init_handles (initDbs_with openable handles pp tp env fs s))
   = Fulfilled (products_client pp env) /\
   transactionsClient (init_handles (initDbs_with openable handles pp tp env fs s))
   = transactionsClient handles /\
   getTransactionsDb (init_handles (initDbs_with openable no_clients pp tp env fs s))
   = Rejected transactions_not_initialized /\
   init_storage (initDbs_with openable handles pp tp env fs s) = s) /\
  (openable (products_url pp env) = false ->
   rejected (init_outcome (initDbs_with openable handles pp tp env fs s)) = true /\
   init_handles (initDbs_with openable handles pp tp env fs s) = handles /\
   init_storage (initDbs_with openable handles pp tp env fs s) = s).
Proof.
  split; [reflexivity |]. split; [reflexivity |]. split; [| split].
  - intros Hpo Hto. rewrite (initDbs_with_openable openable handles) by assumption.
    rewrite initDbs_unfold. unfold init_outcome, init_handles, init_storage.
    cbn [fst snd]. repeat (split; [reflexivity |]).
    intros Hfirst. destruct fs as [| [] later]; try discriminate. by split.
  - unfold initDbs_with, createClient, products_url, transactions_url.
    by intros -> ->.
  - unfold initDbs_with, createClient, products_url. by intros ->.
Qed.

Lemma or_else_set u fallback : u <> EmptyString -> or_else (Some u) fallback = u.
Proof. intros Hu. simpl. by destruct (String.eqb_spec u EmptyString). Qed.

(** With a non-empty TURSO_URL, both clients are built on that URL and the
    two path arguments are ignored: [initDbs] gives the same result for any
    paths, and when the database of that URL can be opened and no statement
    is rejected all six tables exist in that one database. *)
Theorem initDbs_turso_url (openable : string -> bool) (handles : Clients)
    (pp tp pp' tp' u : string) (env : Env) (fs : list bool) (s : Storage) :
  TURSO_URL env = Some u ->
  u <> EmptyString ->
  initDbs_with openable handles pp tp env fs s
  = initDbs_with openable handles pp' tp' env fs s /\
  client_url (products_client pp env) = u /\
  client_url (transactions_client tp env) = u /\
  (openable u = true ->
   no_fault fs ->
   forall t,
     has_table t
       (open_database u (init_storage (initDbs_with openable handles pp tp env fs s)))
     = true).
Proof.
  intros Hurl Hu.
  assert (Hpu : forall p, products_url p env = u).
  { intros p. unfold products_url. by rewrite Hurl, or_else_set. }
  assert (Htu : forall p, transactions_url p env = u).
  { intros p. unfold transactions_url. by rewrite Hurl, or_else_set. }
  split; [| split; [apply Hpu | split; [apply Htu |]]].
  - unfold initDbs_with.
    change (or_else (TURSO_URL env) ("file:" ++ pp)) with (products_url pp env).
    change (or_else (TURSO_URL env) ("file:" ++ tp)) with (transactions_url tp env).
    change (or_else (TURSO_URL env) ("file:" ++ pp')) with (products_url pp' env).
    change (or_else (TURSO_URL env) ("file:" ++ tp')) with (transactions_url tp' env).
    by rewrite (Hpu pp), (Hpu pp'), (Htu tp), (Htu tp').
  - intros Hopen Hfs t.
    rewrite (initDbs_with_openable openable handles)
      by (by rewrite ?Hpu, ?Htu).
    rewrite initDbs_unfold. unfold init_storage. cbn [snd].
    destruct (execute_all_no_fault
                (schema_statements (products_client pp env) (transactions_client tp env))
                fs s Hfs) as [_ Hall].
    unfold schema_statements in Hall |- *.
    repeat match goal with
           | H : Forall _ (_ :: _) |- _ => apply Forall_cons in H; destruct H as [? H]
           end.
    cbn [fst snd client_url products_client transactions_client] in *.
    rewrite ?(Hpu pp), ?(Htu tp) in *.
    destruct t; assumption.
Qed.

Lemma initDbs_turso_url_witness :
  initDbs_with (fun _ => true) no_clients "a.db" "b.db" turso_env [] ∅
  = initDbs_with (fun _ => true) no_clients "c.db" "d.db" turso_env [] ∅ /\
  client_url (products_client "a.db" turso_env) = "libsql://shop.turso.io" /\
  client_url (transactions_client "b.db" turso_env) = "libsql://shop.turso.io" /\
  ((fun _ : string => true) "libsql://shop.turso.io" = true ->
   no_fault [] ->
   forall t,
     has_table t
       (open_database "libsql://shop.turso.io"
          (init_storage
             (initDbs_with (fun _ => true) no_clients "a.db" "b.db" turso_env [] ∅)))
     = true).
Proof.
  apply (initDbs_turso_url (fun _ => true) no_clients "a.db" "b.db" "c.db" "d.db"
           "libsql://shop.turso.io" turso_env [] ∅).
  - reflexivity.
  - discriminate.
Defined.

Example transactions_db_fresh :
  transactions_db
    (open_database "file:transactions.db"
       (init_storage (initDbs "products.db" "transactions.db" local_env [] ∅)))
  = Some empty_db.
Proof. vm_compute. reflexivity. Qed.
